(** * GridPath (cetlab-ucsb fork): vintage windows, dynamic registries and
      linked-timepoint hand-off

    A shallow embedding of the set rules, expression rules and constraint
    rules of the capacity-type and operational-type modules that assemble
    the optimisation model, with the properties the specification states
    about them.

    Conventions of the embedding:
    - a project or transmission line is a [string], a period, a vintage and a
      timepoint are integers ([Z]), as the Pyomo sets hold them;
    - a [Param] within [NonNegativeReals] is an exact rational ([Q]);
    - a Python [set] of pairs is a [gset], [list(set(...))] is [elements];
    - a Pyomo indexed component that can miss an index is a [gmap], and the
      lookup that raises in Python returns an error of type [exn]. *)

From Stdlib Require Import ZArith QArith Lqa.
From stdpp Require Import gmap strings list fin_maps fin_sets sorting pretty.

Local Open Scope string_scope.
Local Open Scope Z_scope.
Local Open Scope list_scope.

(** ** Rationals as booleans *)

(** [x < y] on rationals, decided. *)
Definition Qlt_bool (x y : Q) : bool := negb (Qle_bool y x).

(** ** Python and Pyomo primitives *)

(** The exceptions the modelled code can raise. *)
Inductive exn :=
| KeyError (component : string)
| AttributeError (name : string)
| UnboundLocalError (name : string)
| ValueError (what : string).

Inductive result (A : Type) :=
| Ok (a : A)
| Raise (e : exn).
Arguments Ok {A} a.
Arguments Raise {A} e.

#[global] Instance result_ret : MRet result := λ A, Ok.
#[global] Instance result_bind : MBind result :=
  λ A B f r, match r with Ok a => f a | Raise e => Raise e end.

(** Pyomo expressions over indexed variables; every index of the modelled
    components is a pair of a name and an integer. *)
Inductive expr :=
| Num (q : Q)
| Var (component : string) (index : string * Z)
| Add (a b : expr)
| Sub (a b : expr)
| Mul (a b : expr)
| Div (a b : expr).

Inductive constraint :=
| ConstraintEq (lhs rhs : expr)
| ConstraintLe (lhs rhs : expr).

(** What a constraint rule returns: [Constraint.Skip] or a relation. *)
Inductive rule_value :=
| Skip
| Built (c : constraint).

(** [value(e)] under a valuation of the variables. *)
Fixpoint value (ρ : string → string * Z → Q) (e : expr) : Q :=
  match e with
  | Num q => q
  | Var c i => ρ c i
  | Add a b => value ρ a + value ρ b
  | Sub a b => value ρ a - value ρ b
  | Mul a b => value ρ a * value ρ b
  | Div a b => value ρ a / value ρ b
  end%Q.

(** Python's [sum] of a generator: [0 + t1 + t2 + ...]. *)
Definition py_sum (terms : list expr) : expr := fold_left Add terms (Num 0).

(** A [Param] read at an index it may not have. *)
Definition param `{Countable K} (name : string) (data : gmap K Q) (k : K) : result expr :=
  match data !! k with
  | Some q => Ok (Num q)
  | None => Raise (KeyError name)
  end.

(** A local variable read; a name not yet assigned raises. *)
Definition local (name : string) (v : option expr) : result expr :=
  match v with
  | Some e => Ok e
  | None => Raise (UnboundLocalError name)
  end.

(** [max(x, 0)] *)
Definition max0 (x : Q) : Q := if Qle_bool 0 x then x else 0%Q.

(** The order of Python tuples [(str, int)], for [sorted]. *)
Definition tuple_le (a b : string * Z) : Prop :=
  match String.compare a.1 b.1 with
  | Lt => True
  | Eq => a.2 ≤ b.2
  | Gt => False
  end.

#[global] Instance tuple_le_dec (a b : string * Z) : Decision (tuple_le a b) :=
  match String.compare a.1 b.1 as c
    return Decision (match c with Lt => True | Eq => a.2 ≤ b.2 | Gt => False end) with
  | Lt => left I
  | Eq => decide (a.2 ≤ b.2)
  | Gt => right (λ H, H)
  end.

Definition sorted (l : list (string * Z)) : list (string * Z) := merge_sort tuple_le l.

(** ** Transmission capacity type [mass_new_lin] *)

Module MassNewLin.

(** The part of the Pyomo model the set rules read.  [period_start_year]
    is the per-period parameter of the temporal module; the sibling
    capacity types hand it to the shared resolver, the rules of this
    module never read it. *)
Record model := Model {
  PERIODS : list Z;
  period_start_year : Z → Z;
  MASS_NEW_LIN_VNTS : list (string * Z);
  mass_new_lin_lifetime_yrs : string * Z → Q;
}.

(** The test [v <= p < v + mod.mass_new_lin_lifetime_yrs[g, v]]. *)
Definition operational (m : model) (g : string) (v p : Z) : bool :=
  (v <=? p) && Qlt_bool (inject_Z p) (inject_Z v + mass_new_lin_lifetime_yrs m (g, v)).

(** The loop over [mod.PERIODS] appending to [operational_periods]. *)
Definition operational_periods_by_new_build_transmission_vintage
    (m : model) (g : string) (v : Z) : list Z :=
  fold_left
    (λ operational_periods p,
       if operational m g v p then operational_periods ++ [p]
       else operational_periods)
    (PERIODS m) [].

(** The indexed set [OPR_PRDS_BY_MASS_NEW_LIN_VINTAGE], initialised by the
    rule above at every index. *)
Definition OPR_PRDS_BY_MASS_NEW_LIN_VINTAGE (m : model) (gv : string * Z) : list Z :=
  operational_periods_by_new_build_transmission_vintage m gv.1 gv.2.

(** [list(set((g, p) for (g, v) in VNTS for p in OPR_PRDS_BY[g, v]))] *)
Definition operational_pairs (m : model) (vnts : list (string * Z)) : gset (string * Z) :=
  list_to_set
    (gv ← vnts; p ← OPR_PRDS_BY_MASS_NEW_LIN_VINTAGE m gv; [(gv.1, p)]).

Definition new_build_transmission_operational_periods (m : model) : list (string * Z) :=
  elements (operational_pairs m (MASS_NEW_LIN_VNTS m)).

(** [new_build_transmission_vintages_operational_in_period] *)
Definition new_build_transmission_vintages_operational_in_period
    (m : model) (p : Z) : list (string * Z) :=
  fold_left
    (λ build_vintages_by_period gv,
       if bool_decide (p ∈ OPR_PRDS_BY_MASS_NEW_LIN_VINTAGE m gv)
       then build_vintages_by_period ++ [gv]
       else build_vintages_by_period)
    (MASS_NEW_LIN_VNTS m) [].

(** The interval of the specification, on start years. *)
Definition in_start_year_interval (m : model) (g : string) (v p : Z) : Prop :=
  period_start_year m v ≤ period_start_year m p
  ∧ (inject_Z (period_start_year m p)
     < inject_Z (period_start_year m v) + mass_new_lin_lifetime_yrs m (g, v))%Q.

(** Two vintages of one line, ten years of life each. *)
Definition two_vintages : model :=
  Model [2020; 2025; 2030; 2035] (λ p, p)
        [("Line1", 2020); ("Line1", 2030)] (λ _, 10%Q).

(** A period labelled 2030 that starts in 2025. *)
Definition offset_periods : model :=
  Model [2020; 2030] (λ p, if p =? 2030 then 2025 else p)
        [("Line1", 2020)] (λ _, 8%Q).

Definition with_lifetime (m : model) (L : Q) : model :=
  Model (PERIODS m) (period_start_year m) (MASS_NEW_LIN_VNTS m) (λ _, L).

End MassNewLin.

(** ** Operational type [stor_H2] *)

Module StorH2.

(** A delimited file: rows of cells, the header row first. *)
Inductive cell :=
| CStr (s : string)
| CInt (z : Z)
| CNum (q : Q).

(** The scenario directory tree: a path is the list of the components
    handed to [os.path.join]. *)
Abbreviation filesystem := (gmap (list string) (list (list cell))).

(** What [data_portal.load] has stored, by component name. *)
Record data_portal := DataPortal {
  portal_sets : gmap string (list (string * Z));
  portal_params : gmap string (gmap (string * Z) Q);
}.

(** The model attributes the module reads.  Parameters that the temporal
    and project modules define over every timepoint or project are total
    functions; the linked parameters are partial: they hold what was
    loaded.  [other_sets] and [other_vars] are the components other
    modules of the run have attached to the model, by attribute name. *)
Record model := Model {
  other_sets : gmap string (list (string * Z));
  other_vars : gset string;
  STOR_H2_OPR_TMPS : list (string * Z);
  balancing_type_project : string → string;
  period : Z → Z;
  horizon : Z → string → Z;
  prev_tmp : Z → string → Z;
  hrs_in_tmp : Z → Q;
  tmp_weight : Z → Q;
  technology : string → string;
  load_zone : string → string;
  stor_H2_charging_efficiency : string → Q;
  stor_H2_discharging_efficiency : string → Q;
  hrs_in_linked_tmp : gmap Z Q;
  STOR_H2_LINKED_TMPS : list (string * Z);
  stor_linked_starting_H2_in_storage : gmap (string * Z) Q;
  stor_H2_linked_discharge : gmap (string * Z) Q;
  stor_H2_linked_charge : gmap (string * Z) Q;
}.

(** [mod.NAME] for a set another module may have declared. *)
Definition getattr_set (m : model) (name : string) : result (list (string * Z)) :=
  match other_sets m !! name with
  | Some s => Ok s
  | None => Raise (AttributeError name)
  end.

(** [value(mod.NAME[p, tmp])] for a variable another module may have declared. *)
Definition getattr_value (m : model) (solution : string → string * Z → Q)
    (name : string) (i : string * Z) : result Q :=
  if bool_decide (name ∈ other_vars m) then Ok (solution name i)
  else Raise (AttributeError name).

(** The local variables of [H2_tracking_rule] after its inner branch. *)
Record locals := Locals {
  prev_tmp_hrs_in_tmp : option expr;
  prev_tmp_weight : option expr;
  prev_tmp_starting_energy_in_storage : option expr;
  prev_tmp_discharge : option expr;
  prev_tmp_charge : option expr;
}.

Section Rules.

(** The two helpers of [gridpath.project.common_functions]. *)
Variable check_if_first_timepoint : model → Z → string → bool.
Variable check_boundary_type : model → Z → string → string → bool.

Definition H2_tracking_rule (m : model) (s : string) (tmp : Z) : result rule_value :=
  let bt := balancing_type_project m s in
  if check_if_first_timepoint m tmp bt && check_boundary_type m tmp bt "linear"
  then Ok Skip
  else
    l ← (if check_if_first_timepoint m tmp bt
            && check_boundary_type m tmp bt "linked"
         then
           h ← param "hrs_in_linked_tmp" (hrs_in_linked_tmp m) 0;
           e ← param "stor_linked_starting_H2_in_storage"
                 (stor_linked_starting_H2_in_storage m) (s, 0);
           d ← param "stor_H2_linked_discharge" (stor_H2_linked_discharge m) (s, 0);
           c ← param "stor_H2_linked_charge" (stor_H2_linked_charge m) (s, 0);
           Ok (Locals (Some h) None (Some e) (Some d) (Some c))
         else
           let prev := prev_tmp m tmp bt in
           Ok (Locals (Some (Num (hrs_in_tmp m prev)))
                      (Some (Num (tmp_weight m prev)))
                      (Some (Var "Stor_Starting_H2_in_Storage_MWh" (s, prev)))
                      (Some (Var "Stor_H2_Discharge_MW" (s, prev)))
                      (Some (Var "Stor_H2_Charge_MW" (s, prev)))));
    (* the operands of the returned relation, read left to right *)
    e ← local "prev_tmp_starting_energy_in_storage"
          (prev_tmp_starting_energy_in_storage l);
    c ← local "prev_tmp_charge" (prev_tmp_charge l);
    h ← local "prev_tmp_hrs_in_tmp" (prev_tmp_hrs_in_tmp l);
    w ← local "prev_tmp_weight" (prev_tmp_weight l);
    d ← local "prev_tmp_discharge" (prev_tmp_discharge l);
    Ok (Built (ConstraintEq
          (Var "Stor_Starting_H2_in_Storage_MWh" (s, tmp))
          (Sub (Add e (Mul (Mul (Mul c h) w)
                           (Num (stor_H2_charging_efficiency m s))))
               (Div (Mul (Mul d h) w)
                    (Num (stor_H2_discharging_efficiency m s)))))).

(** [Stor_H2_Tracking_Constraint]: the rule at every index, in order. *)
Definition Stor_H2_Tracking_Constraint (m : model) : result (list rule_value) :=
  mapM (λ i, H2_tracking_rule m i.1 i.2) (STOR_H2_OPR_TMPS m).

End Rules.

(** *** Input: [load_model_data] *)

Definition linked_inputs_filename (scenario_directory : string) (subproblem : Z)
    (stage : string) : list string :=
  [scenario_directory; pretty subproblem; stage; "inputs";
   "stor_H2_linked_timepoint_params.tab"].

(** A data row of a linked-timepoint table with three parameter columns. *)
Definition parse_linked_row (r : list cell) : result (string * Z * (Q * Q * Q)) :=
  match r with
  | [CStr p; CInt t; CNum a; CNum b; CNum c] => Ok (p, t, (a, b, c))
  | _ => Raise (ValueError "linked timepoint row")
  end.

(** [data_portal.load(filename, index=the set named index_name, param=(...))] *)
Definition portal_load (dp : data_portal) (index_name : string)
    (rows : list (string * Z * (Q * Q * Q))) : data_portal :=
  let column (f : Q * Q * Q → Q) : gmap (string * Z) Q :=
    list_to_map ((λ r, (r.1, f r.2)) <$> rows) in
  DataPortal
    (<[index_name := rows.*1]> (portal_sets dp))
    (<["stor_linked_starting_H2_in_storage" := column (λ t, t.1.1)]>
       (<["stor_H2_linked_discharge" := column (λ t, t.1.2)]>
          (<["stor_H2_linked_charge" := column (λ t, t.2)]> (portal_params dp)))).

Section InputOutput.

(** [load_optype_model_data] and [check_for_tmps_to_link] of
    [operational_types.common_functions]. *)
Variable load_optype_model_data :
  model → data_portal → string → Z → string → string → result data_portal.
Variable check_for_tmps_to_link : string → Z → string → list Z * gmap Z Z.

Definition load_model_data (fs : filesystem) (m : model) (dp : data_portal)
    (scenario_directory : string) (subproblem : Z) (stage : string) : result data_portal :=
  dp ← load_optype_model_data m dp scenario_directory subproblem stage "stor_H2";
  match fs !! linked_inputs_filename scenario_directory subproblem stage with
  | Some f =>
      _ ← getattr_set m "STOR_LINKED_TMPS";
      rows ← mapM parse_linked_row (tail f);
      Ok (portal_load dp "STOR_LINKED_TMPS" rows)
  | None => Ok dp
  end.

(** *** Output: [export_results] *)

Definition dispatch_row (m : model) (solution : string → string * Z → Q)
    (i : string * Z) : list cell :=
  let '(p, tmp) := i in
  [CStr p; CInt (period m tmp); CStr (balancing_type_project m p);
   CInt (horizon m tmp (balancing_type_project m p)); CInt tmp;
   CNum (tmp_weight m tmp); CNum (hrs_in_tmp m tmp);
   CStr (technology m p); CStr (load_zone m p);
   CNum (solution "Stor_Starting_H2_in_Storage_MWh" (p, tmp));
   CNum (solution "Stor_H2_Charge_MW" (p, tmp));
   CNum (solution "Stor_H2_Discharge_MW" (p, tmp))].

Definition dispatch_header : list cell :=
  CStr <$> ["project"; "period"; "balancing_type_project"; "horizon"; "timepoint";
            "timepoint_weight"; "number_of_hours_in_timepoint"; "technology";
            "load_zone"; "H2_stor_mwh"; "H2_charge_mw"; "H2_discharge_mw"].

Definition linked_header : list cell :=
  CStr <$> ["project"; "linked_timepoint"; "linked_charge"; "linked_H2"].

(** One row of the linked-timepoint export. *)
Definition linked_row (m : model) (solution : string → string * Z → Q)
    (tmp_linked_tmp_dict : gmap Z Z) (i : string * Z) : result (list cell) :=
  let '(p, tmp) := i in
  lt ← match tmp_linked_tmp_dict !! tmp with
       | Some lt => Ok lt
       | None => Raise (KeyError "tmp_linked_tmp_dict")
       end;
  c ← getattr_value m solution "Gen_H2_Charge_MW" (p, tmp);
  h ← getattr_value m solution "Gen_H2_MW" (p, tmp);
  Ok [CStr p; CInt lt; CNum (max0 c); CNum (max0 h)].

(** The loop writing the rows; the rows written before an exception stay
    in the file. *)
Fixpoint write_linked_rows (m : model) (solution : string → string * Z → Q)
    (tmps_to_link : list Z) (tmp_linked_tmp_dict : gmap Z Z)
    (todo : list (string * Z)) (written : list (list cell))
    : list (list cell) * result unit :=
  match todo with
  | [] => (written, Ok ())
  | i :: rest =>
      if bool_decide (i.2 ∈ tmps_to_link) then
        match linked_row m solution tmp_linked_tmp_dict i with
        | Ok r => write_linked_rows m solution tmps_to_link tmp_linked_tmp_dict
                    rest (written ++ [r])
        | Raise e => (written, Raise e)
        end
      else write_linked_rows m solution tmps_to_link tmp_linked_tmp_dict rest written
  end.

Definition linked_outputs_filename (scenario_directory : string) (subproblem : Z)
    (stage : string) : list string :=
  let next_subproblem := pretty (subproblem + 1) in
  [scenario_directory; next_subproblem; stage; "inputs";
   "gen_H2_linked_timepoint_params.tab"].

(** The file system after the call, and whether the call returned. *)
Definition export_results (fs : filesystem) (m : model)
    (solution : string → string * Z → Q)
    (scenario_directory : string) (subproblem : Z) (stage : string)
    : filesystem * result unit :=
  let fs :=
    <[[scenario_directory; pretty subproblem; stage; "results"; "dispatch_stor_H2.csv"]
      := dispatch_header :: (dispatch_row m solution <$> STOR_H2_OPR_TMPS m)]> fs in
  let '(tmps_to_link, tmp_linked_tmp_dict) :=
    check_for_tmps_to_link scenario_directory subproblem stage in
  match tmps_to_link with
  | [] => (fs, Ok ())
  | _ :: _ =>
      let f := linked_outputs_filename scenario_directory subproblem stage in
      match getattr_set m "GEN_H2_OPR_TMPS" with
      | Raise e => (<[f := [linked_header]]> fs, Raise e)
      | Ok opr_tmps =>
          let '(rows, r) :=
            write_linked_rows m solution tmps_to_link tmp_linked_tmp_dict
              (sorted opr_tmps) [] in
          (<[f := linked_header :: rows]> fs, r)
      end
  end.

End InputOutput.

(** *** Instance creation *)

(** The linked parameters of the instance take the loaded data; an index
    outside [STOR_H2_LINKED_TMPS] is refused. *)
Definition linked_param (dp : data_portal) (index : list (string * Z)) (name : string)
    : result (gmap (string * Z) Q) :=
  let data := default ∅ (portal_params dp !! name) in
  if bool_decide (dom data ⊆ list_to_set index) then Ok data
  else Raise (KeyError name).

Definition create_instance (m : model) (dp : data_portal) : result model :=
  let index := default [] (portal_sets dp !! "STOR_H2_LINKED_TMPS") in
  e ← linked_param dp index "stor_linked_starting_H2_in_storage";
  d ← linked_param dp index "stor_H2_linked_discharge";
  c ← linked_param dp index "stor_H2_linked_charge";
  Ok (Model (other_sets m) (other_vars m) (STOR_H2_OPR_TMPS m)
            (balancing_type_project m) (period m) (horizon m) (prev_tmp m)
            (hrs_in_tmp m) (tmp_weight m) (technology m) (load_zone m)
            (stor_H2_charging_efficiency m) (stor_H2_discharging_efficiency m)
            (hrs_in_linked_tmp m) index e d c).

(** *** Building one subproblem *)

(** Load the inputs, create the instance, construct the tracking
    constraint. *)
Definition build_subproblem
    (check_if_first_timepoint : model → Z → string → bool)
    (check_boundary_type : model → Z → string → string → bool)
    (load_optype_model_data :
       model → data_portal → string → Z → string → string → result data_portal)
    (fs : filesystem) (m : model) (dp : data_portal)
    (scenario_directory : string) (subproblem : Z) (stage : string)
    : result (list rule_value) :=
  dp ← load_model_data load_optype_model_data fs m dp scenario_directory subproblem stage;
  instance ← create_instance m dp;
  Stor_H2_Tracking_Constraint check_if_first_timepoint check_boundary_type instance.

(** *** A two-timepoint run *)

(** One storage project over the timepoints 1 and 2 of a single horizon
    whose boundary is linked; [linked] holds the values handed over by the
    previous subproblem, if any. *)
Definition cavern (linked : option (Q * Q * Q)) : model :=
  Model ∅ ∅ [("Cavern", 1); ("Cavern", 2)]
        (λ _, "day") (λ _, 2030) (λ _ _, 1) (λ tmp _, tmp - 1)
        (λ _, 1%Q) (λ _, 1%Q) (λ _, "H2") (λ _, "Zone1") (λ _, 1%Q) (λ _, 1%Q)
        {[0 := 1%Q]}
        (if linked is Some _ then [("Cavern", 0)] else [])
        (from_option (λ t, {[("Cavern", 0) := t.1.1]}) ∅ linked)
        (from_option (λ t, {[("Cavern", 0) := t.1.2]}) ∅ linked)
        (from_option (λ t, {[("Cavern", 0) := t.2]}) ∅ linked).

(** The same run with the components of a hydrogen generator attached. *)
Definition with_gen_H2 (m : model) : model :=
  Model {["GEN_H2_OPR_TMPS" := [("Electrolyzer", 2); ("Electrolyzer", 1)]]}
        {["Gen_H2_Charge_MW"; "Gen_H2_MW"]}
        (STOR_H2_OPR_TMPS m) (balancing_type_project m) (period m) (horizon m)
        (prev_tmp m) (hrs_in_tmp m) (tmp_weight m) (technology m) (load_zone m)
        (stor_H2_charging_efficiency m) (stor_H2_discharging_efficiency m)
        (hrs_in_linked_tmp m) (STOR_H2_LINKED_TMPS m)
        (stor_linked_starting_H2_in_storage m) (stor_H2_linked_discharge m)
        (stor_H2_linked_charge m).

Definition first_of_horizon : model → Z → string → bool := λ _ tmp _, tmp =? 1.

Definition linked_boundary : model → Z → string → string → bool :=
  λ _ _ _ boundary_type, String.eqb boundary_type "linked".

Definition linear_boundary : model → Z → string → string → bool :=
  λ _ _ _ boundary_type, String.eqb boundary_type "linear".

Definition optype_data_only :
    model → data_portal → string → Z → string → string → result data_portal :=
  λ _ dp _ _ _ _, Ok dp.

(** Timepoint 2 of the current subproblem is linked timepoint 0 of the next. *)
Definition link_last_timepoint : string → Z → string → list Z * gmap Z Z :=
  λ _ _ _, ([2], {[2 := 0]}).

Definition nothing_to_link : string → Z → string → list Z * gmap Z Z :=
  λ _ _ _, ([], ∅).

Definition stored : string → string * Z → Q := λ _ _, 40%Q.

(** The export of subproblem 1, with and without timepoints to link. *)
Definition exported : filesystem * result unit :=
  export_results link_last_timepoint ∅ (with_gen_H2 (cavern None)) stored "scenario" 1 "1".

Definition exported_unlinked : filesystem * result unit :=
  export_results nothing_to_link ∅ (with_gen_H2 (cavern None)) stored "scenario" 1 "1".

(** The same export when the storage project is the only hydrogen component. *)
Definition exported_alone : filesystem * result unit :=
  export_results link_last_timepoint ∅ (cavern None) stored "scenario" 1 "1".

End StorH2.

(** ** System module [ccs_balance] *)

Module CcsBalance.

(** The two registries of the [DynamicComponents] object this module uses. *)
Record DynamicComponents := Dynamic {
  ccs_balance_production_components : list string;
  ccs_balance_consumption_components : list string;
}.

(** [expressions] holds the components indexed by load zone and timepoint
    that the modules of the run have attached to the model, by name. *)
Record model := Model {
  allow_over_ccs : string → Q;
  allow_unserved_ccs : string → Q;
  expressions : gmap string (string * Z → expr);
}.

Definition over_ccs_expression_rule (m : model) (z : string) (tmp : Z) : expr :=
  Mul (Num (allow_over_ccs m z)) (Var "Over_CCS" (z, tmp)).

Definition unserved_ccs_expression_rule (m : model) (z : string) (tmp : Z) : expr :=
  Mul (Num (allow_unserved_ccs m z)) (Var "Unserved_CCS" (z, tmp)).

Definition record_dynamic_components (dynamic_components : DynamicComponents)
    : DynamicComponents :=
  Dynamic
    (ccs_balance_production_components dynamic_components ++ ["Unserved_CCS_Expression"])
    (ccs_balance_consumption_components dynamic_components ++ ["Over_CCS_Expression"]).

(** [getattr(mod, component)[z, tmp]] *)
Definition component_at (m : model) (z : string) (tmp : Z) (component : string)
    : result expr :=
  match expressions m !! component with
  | Some e => Ok (e (z, tmp))
  | None => Raise (AttributeError component)
  end.

(** [meet_ccs_rule] reads the registries of [d] when the constraint is
    constructed. *)
Definition meet_ccs_rule (d : DynamicComponents) (m : model) (z : string) (tmp : Z)
    : result rule_value :=
  production ← mapM (component_at m z tmp) (ccs_balance_production_components d);
  consumption ← mapM (component_at m z tmp) (ccs_balance_consumption_components d);
  Ok (Built (ConstraintEq (py_sum production) (py_sum consumption))).

(** The model and the registries after the module has added its
    components; [Meet_CCS_Constraint] is [meet_ccs_rule] over the registries
    as they stand when the instance is constructed. *)
Definition add_model_components (m : model) (d : DynamicComponents)
    : model * DynamicComponents :=
  let e := <["Over_CCS_Expression" := λ i, over_ccs_expression_rule m i.1 i.2]>
             (expressions m) in
  let e := <["Unserved_CCS_Expression" := λ i, unserved_ccs_expression_rule m i.1 i.2]> e in
  (Model (allow_over_ccs m) (allow_unserved_ccs m) e, record_dynamic_components d).

(** The sum of the values of the named components at a zone and timepoint. *)
Definition total (ρ : string → string * Z → Q) (m : model) (z : string) (tmp : Z)
    (components : list string) : Q :=
  foldr (λ component acc,
           (match expressions m !! component with
            | Some e => value ρ (e (z, tmp))
            | None => 0
            end + acc)%Q) 0%Q components.

(** A model with no component yet and empty registries. *)
Definition bare : model := Model (λ _, 1%Q) (λ _, 0%Q) ∅.

Definition unregistered : DynamicComponents := Dynamic [] [].

End CcsBalance.

(** ** Capacity type [dr_new] *)

Module DrNew.

Record model := Model {
  PERIODS : list Z;
  DR_NEW : list string;
  dr_new_min_duration : string → Q;
}.

(** [DR_NEW * PERIODS] *)
Definition DR_NEW_OPR_PRDS (m : model) : list (string * Z) :=
  g ← DR_NEW m; p ← PERIODS m; [(g, p)].

Definition dr_new_energy_capacity_rule (m : model) (g : string) (p : Z) : expr :=
  py_sum ((λ prev_p, Var "DRNew_Build_MWh" (g, prev_p))
            <$> filter (λ prev_p, prev_p ≤ p) (PERIODS m)).

Definition dr_new_power_capacity_rule (m : model) (g : string) (p : Z) : expr :=
  Div (Var "DRNew_Build_MWh" (g, p)) (Num (dr_new_min_duration m g)).

(** The registries after [add_module_specific_components]. *)
Definition add_module_specific_components
    (capacity_type_operational_period_sets
     storage_only_capacity_type_operational_period_sets : list string)
    : list string * list string :=
  (capacity_type_operational_period_sets ++ ["DR_NEW_OPR_PRDS"],
   storage_only_capacity_type_operational_period_sets ++ ["DR_NEW_OPR_PRDS"]).

(** A valuation with the build of one project and period raised by [δ]. *)
Definition raise_build (ρ : string → string * Z → Q) (g : string) (v : Z) (δ : Q)
    : string → string * Z → Q :=
  λ c i, if bool_decide (c = "DRNew_Build_MWh" ∧ i = (g, v)) then (ρ c i + δ)%Q else ρ c i.

(** The builds of a project in the periods up to and including [p], added up. *)
Definition cumulative_build (ρ : string → string * Z → Q) (m : model) (g : string) (p : Z)
    : Q :=
  foldr (λ prev_p acc, (ρ "DRNew_Build_MWh" (g, prev_p) + acc)%Q) 0%Q
        (filter (λ prev_p, prev_p ≤ p) (PERIODS m)).

Definition three_periods : model := Model [2020; 2030; 2040] ["Shift1"] (λ _, 4%Q).

End DrNew.

(** ** Project capacity types [gen_ccs_new], [stor_ccs_new_lin], [gen_ccs_spec] *)

Module CapacityTypes.

(** Modelled from the spec: [operational_periods_by_project_vintage] of
    [capacity_types.common_methods], which is not among the sources.  The
    specification (section 4.1) has it return the ordered subset of the
    periods whose start year lies in the right-open interval
    [[start_year(vintage), start_year(vintage) + lifetime)]. *)
Definition operational_periods_by_project_vintage (periods : list Z)
    (period_start_year period_end_year : Z → Z) (vintage : Z) (lifetime_yrs : Q)
    : list Z :=
  filter
    (λ p, Is_true
            ((period_start_year vintage <=? period_start_year p)
             && Qlt_bool (inject_Z (period_start_year p))
                         (inject_Z (period_start_year vintage) + lifetime_yrs)))
    periods.

(** Modelled from the spec: [project_operational_periods] of
    [capacity_types.common_methods], which is not among the sources: the
    union, per project, of the windows of all its vintages (section 3,
    ProjectOperationalPeriods). *)
Definition project_operational_periods (project_vintages_set : list (string * Z))
    (operational_periods_by_project_vintage_set : string * Z → list Z)
    : list (string * Z) :=
  elements
    (list_to_set (C := gset (string * Z))
       (gv ← project_vintages_set;
        p ← operational_periods_by_project_vintage_set gv; [(gv.1, p)])).

(** The data of the three modules: the temporal parameters, the sets read
    from the input tables and the lifetimes by vintage. *)
Record model := Model {
  PERIODS : list Z;
  period_start_year : Z → Z;
  period_end_year : Z → Z;
  GEN_CCS_NEW_VNTS : list (string * Z);
  gen_ccs_new_gen_lifetime_yrs_by_vintage : string * Z → Q;
  gen_ccs_new_ccs_lifetime_yrs_by_vintage : string * Z → Q;
  STOR_CCS_NEW_LIN_VNTS : list (string * Z);
  stor_ccs_new_lin_lifetime_yrs : string * Z → Q;
  GEN_CCS_SPEC_OPR_PRDS : list (string * Z);
  gen_ccs_spec_ccs_lifetime_yrs_by_vintage : string * Z → Q;
}.

(** The two-dimensional sets attached to the model, by attribute name, and
    the registry [capacity_type_operational_period_sets]. *)
Record build := Build {
  attributes : gmap string (list (string * Z));
  capacity_type_operational_period_sets : list string;
}.

(** [getattr(mod, name)] for the last name a module has registered. *)
Definition registered_set (b : build) : option (list (string * Z)) :=
  name ← last (capacity_type_operational_period_sets b); attributes b !! name.

Module GenCcsNew.

Definition operational_periods_by_ccs_vintage (m : model) (gv : string * Z) : list Z :=
  operational_periods_by_project_vintage (PERIODS m) (period_start_year m)
    (period_end_year m) gv.2 (gen_ccs_new_ccs_lifetime_yrs_by_vintage m gv).

Definition operational_periods_by_gen_vintage (m : model) (gv : string * Z) : list Z :=
  operational_periods_by_project_vintage (PERIODS m) (period_start_year m)
    (period_end_year m) gv.2 (gen_ccs_new_gen_lifetime_yrs_by_vintage m gv).

Definition gen_ccs_new_ccs_operational_periods (m : model) : list (string * Z) :=
  project_operational_periods (GEN_CCS_NEW_VNTS m) (operational_periods_by_ccs_vintage m).

Definition gen_ccs_new_gen_operational_periods (m : model) : list (string * Z) :=
  project_operational_periods (GEN_CCS_NEW_VNTS m) (operational_periods_by_gen_vintage m).

Definition add_model_components (m : model) (b : build) : build :=
  Build
    (<["GEN_CCS_NEW_GEN_OPR_PRDS" := gen_ccs_new_gen_operational_periods m]>
       (<["GEN_CCS_NEW_CCS_OPR_PRDS" := gen_ccs_new_ccs_operational_periods m]>
          (<["GEN_CCS_NEW_VNTS" := GEN_CCS_NEW_VNTS m]> (attributes b))))
    (capacity_type_operational_period_sets b ++ ["GEN_CCS_NEW_VNTS"]).

End GenCcsNew.

Module StorCcsNewLin.

Definition operational_periods_by_stor_ccs_vintage (m : model) (gv : string * Z) : list Z :=
  operational_periods_by_project_vintage (PERIODS m) (period_start_year m)
    (period_end_year m) gv.2 (stor_ccs_new_lin_lifetime_yrs m gv).

Definition stor_ccs_new_lin_operational_periods (m : model) : list (string * Z) :=
  project_operational_periods (STOR_CCS_NEW_LIN_VNTS m)
    (operational_periods_by_stor_ccs_vintage m).

Definition add_model_components (m : model) (b : build) : build :=
  Build
    (<["STOR_CCS_NEW_LIN_OPR_PRDS" := stor_ccs_new_lin_operational_periods m]>
       (<["STOR_CCS_NEW_LIN_VNTS" := STOR_CCS_NEW_LIN_VNTS m]> (attributes b)))
    (capacity_type_operational_period_sets b ++ ["STOR_CCS_NEW_LIN_OPR_PRDS"]).

End StorCcsNewLin.

Module GenCcsSpec.

Definition operational_periods_by_ccs_vintage (m : model) (gv : string * Z) : list Z :=
  operational_periods_by_project_vintage (PERIODS m) (period_start_year m)
    (period_end_year m) gv.2 (gen_ccs_spec_ccs_lifetime_yrs_by_vintage m gv).

Definition gen_ccs_new_lin_operational_periods (m : model) : list (string * Z) :=
  project_operational_periods (GEN_CCS_SPEC_OPR_PRDS m)
    (operational_periods_by_ccs_vintage m).

Definition add_model_components (m : model) (b : build) : build :=
  Build
    (<["GEN_CCS_SPEC_CCS_NEW_OPR_PRDS" := gen_ccs_new_lin_operational_periods m]>
       (<["GEN_CCS_SPEC_OPR_PRDS" := GEN_CCS_SPEC_OPR_PRDS m]> (attributes b)))
    (capacity_type_operational_period_sets b ++ ["GEN_CCS_SPEC_OPR_PRDS"]).

End GenCcsSpec.

(** One new-build project with a single vintage that outlives its period. *)
Definition gas_ccs : model :=
  Model [2020; 2030] (λ p, p) (λ p, p + 10)
        [("GasCCS", 2020)] (λ _, 20%Q) (λ _, 20%Q)
        [("Cavern", 2020)] (λ _, 20%Q)
        [] (λ _, 30%Q).

(** *** Joining the registered sets *)

(** What the join can report. *)
Inductive build_error :=
| ConflictError (project : string) (period : Z)
| UnknownSet (name : string).

(** Modelled from the spec: the Capacity Lifecycle Aggregator
    ([gridpath.project.capacity.capacity] and its join helper), which is not
    among the sources.  The specification (sections 4.2 and 7) has it union
    the registered relations into one duplicate-free relation and abort the
    build with an error that names the project and the period when two
    contributions claim the same pair. *)
Fixpoint join_sets (attrs : gmap string (list (string * Z))) (set_list : list string)
    (joined : gset (string * Z)) : build_error + gset (string * Z) :=
  match set_list with
  | [] => inr joined
  | s :: rest =>
      match attrs !! s with
      | None => inl (UnknownSet s)
      | Some elements_of_s =>
          match List.find (λ element, bool_decide (element ∈ joined)) elements_of_s with
          | Some (g, p) => inl (ConflictError g p)
          | None => join_sets attrs rest (joined ∪ list_to_set elements_of_s)
          end
      end
  end.

(** Modelled from the spec: the canonical relation [PRJ_OPR_PRDS] of the
    aggregator, the join of every registered set. *)
Definition PRJ_OPR_PRDS (b : build) : build_error + gset (string * Z) :=
  join_sets (attributes b) (capacity_type_operational_period_sets b) ∅.

(** The [k]-th registered set holds the pair [x]. *)
Definition claimed (attrs : gmap string (list (string * Z))) (set_list : list string)
    (k : nat) (x : string * Z) : Prop :=
  ∃ s elements_of_s,
    set_list !! k = Some s ∧ attrs !! s = Some elements_of_s ∧ x ∈ elements_of_s.

(** Two capacity types that both claim ProjectX in 2030. *)
Definition double_claim : build :=
  Build (<["STOR_CCS_NEW_LIN_OPR_PRDS" := [("ProjectX", 2030); ("ProjectX", 2040)]]>
           (<["GEN_CCS_SPEC_OPR_PRDS" := [("ProjectX", 2020); ("ProjectX", 2030)]]> ∅))
        ["GEN_CCS_SPEC_OPR_PRDS"; "STOR_CCS_NEW_LIN_OPR_PRDS"].

End CapacityTypes.

(** ** Expression rules of [mass_new_lin] *)

Module MassNewLinRules.
Import MassNewLin.

(** A valuation with one variable at one index raised by [δ]. *)
Definition raise_var (ρ : string → string * Z → Q) (name : string) (i : string * Z) (δ : Q)
    : string → string * Z → Q :=
  λ c j, if bool_decide (c = name ∧ j = i) then (ρ c j + δ)%Q else ρ c j.

(** The model with the cost parameter the expression rules read. *)
Record costed := Costed {
  base : model;
  mass_new_lin_annualized_real_cost_per_tonne_yr : string * Z → Q;
}.

(** The indexed set [MASS_NEW_LIN_VNTS_OPR_IN_PRD], defined over [PERIODS]
    and initialised by its rule; any other index is refused. *)
Definition MASS_NEW_LIN_VNTS_OPR_IN_PRD (m : model) (p : Z) : result (list (string * Z)) :=
  if bool_decide (p ∈ PERIODS m)
  then Ok (new_build_transmission_vintages_operational_in_period m p)
  else Raise (KeyError "MASS_NEW_LIN_VNTS_OPR_IN_PRD").

Definition mass_new_lin_capacity_rule (m : model) (g : string) (p : Z) : result expr :=
  vnts ← MASS_NEW_LIN_VNTS_OPR_IN_PRD m p;
  Ok (py_sum ((λ gv, Var "MassNewLin_Build_Tonne" (g, gv.2))
                <$> filter (λ gv, gv.1 = g) vnts)).

(** The expression [MassNewLin_Capacity_Tonne], defined over
    [MASS_NEW_LIN_OPR_PRDS]. *)
Definition MassNewLin_Capacity_Tonne (m : model) (g : string) (p : Z) : result expr :=
  if bool_decide ((g, p) ∈ new_build_transmission_operational_periods m)
  then mass_new_lin_capacity_rule m g p
  else Raise (KeyError "MassNewLin_Capacity_Tonne").

(** [- e] is held as the product by minus one. *)
Definition min_transmission_capacity_tonne_rule (m : model) (g : string) (p : Z)
    : result expr :=
  e ← MassNewLin_Capacity_Tonne m g p; Ok (Mul (Num (-1)) e).

Definition max_transmission_capacity_tonne_rule (m : model) (g : string) (p : Z)
    : result expr :=
  MassNewLin_Capacity_Tonne m g p.

Definition min_transmission_capacity_rule (m : model) (g : string) (p : Z) : expr := Num 0.

Definition max_transmission_capacity_rule (m : model) (g : string) (p : Z) : expr := Num 0.

Definition tx_capacity_cost_rule (m : costed) (g : string) (p : Z) : result expr :=
  vnts ← MASS_NEW_LIN_VNTS_OPR_IN_PRD (base m) p;
  Ok (py_sum ((λ gv, Mul (Var "MassNewLin_Build_Tonne" (g, gv.2))
                         (Num (mass_new_lin_annualized_real_cost_per_tonne_yr m (g, gv.2))))
                <$> filter (λ gv, gv.1 = g) vnts)).

(** The example of the rule's docstring: builds allowed in 2020 and 2030
    for a line with fifteen years of life. *)
Definition fifteen_years : model :=
  Model [2020; 2030; 2040; 2050] (λ p, p)
        [("Line1", 2020); ("Line1", 2030); ("Line2", 2020)] (λ _, 15%Q).

End MassNewLinRules.

(** ** Runs of [stor_H2] with a hand-over file *)

Module StorH2Runs.
Import StorH2.

(** The linked-timepoint table of one project: 40 in storage, no charge,
    no discharge at linked timepoint 0. *)
Definition linked_table : list (list cell) :=
  [CStr <$> ["project"; "linked_timepoint"; "linked_starting_energy_in_storage";
             "linked_discharge"; "linked_charge"];
   [CStr "Cavern"; CInt 0; CNum 40; CNum 0; CNum 0]].

Definition handed_over : filesystem :=
  {[linked_inputs_filename "scenario" 2 "1" := linked_table]}.

(** The run with the components of the generic storage type attached. *)
Definition with_stor (m : model) : model :=
  Model {["STOR_LINKED_TMPS" := []]} ∅
        (STOR_H2_OPR_TMPS m) (balancing_type_project m) (period m) (horizon m)
        (prev_tmp m) (hrs_in_tmp m) (tmp_weight m) (technology m) (load_zone m)
        (stor_H2_charging_efficiency m) (stor_H2_discharging_efficiency m)
        (hrs_in_linked_tmp m) (STOR_H2_LINKED_TMPS m)
        (stor_linked_starting_H2_in_storage m) (stor_H2_linked_discharge m)
        (stor_H2_linked_charge m).

(** A link list whose dictionary misses the linked timepoint. *)
Definition link_without_index : string → Z → string → list Z * gmap Z Z :=
  λ _ _ _, ([2], ∅).

Definition circular_boundary : model → Z → string → string → bool :=
  λ _ _ _ boundary_type, String.eqb boundary_type "circular".

End StorH2Runs.

(** ** Runs of [ccs_balance] *)

Module CcsBalanceRuns.
Import CcsBalance.

(** Capture registered as production and storage as consumption, with
    violations of the balance not allowed. *)
Definition capture_and_storage : model :=
  Model (λ _, 0%Q) (λ _, 0%Q)
        (<["CCS_Capture_in_Zone" := λ i, Var "Capture" i]>
           (<["CCS_Storage_in_Zone" := λ i, Var "Storage" i]> ∅)).

Definition both_registered : DynamicComponents :=
  Dynamic ["CCS_Capture_in_Zone"] ["CCS_Storage_in_Zone"].

(** A registry that names a component no module has attached. *)
Definition dangling : DynamicComponents :=
  Dynamic ["CCS_Capture_in_Zone"; "CCS_Transport_in_Zone"] ["CCS_Storage_in_Zone"].

End CcsBalanceRuns.

(** ** Constraints as relations on values *)

(** A constraint holds under a valuation of the variables. *)
Definition holds (ρ : string → string * Z → Q) (c : constraint) : Prop :=
  match c with
  | ConstraintEq lhs rhs => (value ρ lhs == value ρ rhs)%Q
  | ConstraintLe lhs rhs => (value ρ lhs <= value ρ rhs)%Q
  end.

(** ** Cost rule and inputs of [dr_new] *)

Module DrNewRules.
Import DrNew.

(** The model with the supply curve, by project and point. *)
Record priced := Priced {
  base : model;
  dr_new_supply_curve_slope : string * Z → Q;
  dr_new_supply_curve_intercept : string * Z → Q;
}.

(** [DRNew_Cost[project, period] >= slope * DRNew_Energy_Capacity_MWh[project,
    period] + intercept], held as the bound on the left of [<=]. *)
Definition cost_rule (m : priced) (project : string) (point period : Z) : constraint :=
  ConstraintLe
    (Add (Mul (Num (dr_new_supply_curve_slope m (project, point)))
              (dr_new_energy_capacity_rule (base m) project period))
         (Num (dr_new_supply_curve_intercept m (project, point))))
    (Var "DRNew_Cost" (project, period)).

Definition capacity_rule (m : model) (g : string) (p : Z) : expr :=
  dr_new_power_capacity_rule m g p.

Definition energy_capacity_rule (m : model) (g : string) (p : Z) : expr :=
  dr_new_energy_capacity_rule m g p.

Definition capacity_cost_rule (m : model) (g : string) (p : Z) : expr :=
  Var "DRNew_Cost" (g, p).

(** [determine_projects] of [load_module_specific_data], over the rows of
    the projects file with the columns project, capacity_type and
    minimum_duration_hours; the duration is [None] when [float] refuses its
    text. *)
Fixpoint determine_projects_from (rows : list (string * string * option Q))
    (projects : list string) (max_fraction : gmap string Q)
    : result (list string * gmap string Q) :=
  match rows with
  | [] => Ok (projects, max_fraction)
  | (project, capacity_type, duration) :: rest =>
      if String.eqb capacity_type "dr_new" then
        match duration with
        | Some hours =>
            determine_projects_from rest (projects ++ [project])
              (<[project := hours]> max_fraction)
        | None => Raise (ValueError "could not convert string to float")
        end
      else determine_projects_from rest projects max_fraction
  end.

Definition determine_projects (rows : list (string * string * option Q))
    : result (list string * gmap string Q) :=
  determine_projects_from rows [] ∅.

(** How writing the input files can stop. *)
Inductive input_error :=
| PotentialMissing
| SupplyCurveIdMissing
| SeveralSupplyCurves (project : string).

(** What the four queries of [get_module_specific_inputs_from_database]
    return; a cursor is the list of the rows it has yet to yield, and
    [supply_curve_id] is the row [fetchone] gives, if any. *)
Record query_results := Queries {
  min_max_builds : list (list (option StorH2.cell));
  supply_curve_count : list (string * Z);
  supply_curve_id : option Z;
  supply_curve : list (list StorH2.cell);
}.

Definition get_module_specific_inputs_from_database
    (PROJECT_NEW_POTENTIAL_SCENARIO_ID : option Z) (db : query_results)
    : input_error + query_results :=
  match PROJECT_NEW_POTENTIAL_SCENARIO_ID with
  | None => inl PotentialMissing
  | Some _ =>
      match supply_curve_id db with
      | None => inl SupplyCurveIdMissing
      | Some _ => inr db
      end
  end.

Definition replace_nulls (row : list (option StorH2.cell)) : list StorH2.cell :=
  (λ i, default (StorH2.CStr ".") i) <$> row.

(** The loop over the projects; the inner loop drains the cursor. *)
Fixpoint write_supply_curve (supply_curve_count : list (string * Z))
    (supply_curve : list (list StorH2.cell)) (written : list (list StorH2.cell))
    : list (list StorH2.cell) * option input_error :=
  match supply_curve_count with
  | [] => (written, None)
  | (project, count) :: rest =>
      if 1 <? count then (written, Some (SeveralSupplyCurves project))
      else write_supply_curve rest [] (written ++ supply_curve)
  end.

Definition potential_file (inputs_directory : string) : list string :=
  [inputs_directory; "new_shiftable_load_supply_curve_potential.tab"].

Definition supply_curve_file (inputs_directory : string) : list string :=
  [inputs_directory; "new_shiftable_load_supply_curve.tab"].

(** The file system after the call and the error it stopped on, if any. *)
Definition write_module_specific_model_inputs
    (fs : gmap (list string) (list (list StorH2.cell)))
    (inputs_directory : string) (PROJECT_NEW_POTENTIAL_SCENARIO_ID : option Z)
    (db : query_results)
    : gmap (list string) (list (list StorH2.cell)) * option input_error :=
  match get_module_specific_inputs_from_database PROJECT_NEW_POTENTIAL_SCENARIO_ID db with
  | inl e => (fs, Some e)
  | inr db =>
      let fs :=
        <[potential_file inputs_directory :=
            (StorH2.CStr <$> ["project"; "period"; "min_cumulative_new_build_mwh";
                              "max_cumulative_new_build_mwh"])
            :: (replace_nulls <$> min_max_builds db)]> fs in
      let '(rows, e) := write_supply_curve (supply_curve_count db) (supply_curve db) [] in
      (<[supply_curve_file inputs_directory :=
           (StorH2.CStr <$> ["project"; "point"; "slope"; "intercept"]) :: rows]> fs, e)
  end.

(** A supply curve of two points shared by two projects. *)
Definition two_projects : query_results :=
  Queries [[Some (StorH2.CStr "Shift_DR"); Some (StorH2.CInt 2030); None;
            Some (StorH2.CNum 100)]]
          [("Shift_DR", 1); ("Shift_EV", 1)] (Some 1)
          [[StorH2.CStr "Shift_DR"; StorH2.CInt 1; StorH2.CNum 5; StorH2.CNum 0];
           [StorH2.CStr "Shift_DR"; StorH2.CInt 2; StorH2.CNum 9; StorH2.CNum (-40)]].

Definition projects_tab : list (string * string * option Q) :=
  [("Gas_CT", "gen_new_lin", None); ("Shift_DR", "dr_new", Some 4%Q);
   ("Battery", "stor_new_lin", Some 2%Q); ("Shift_EV", "dr_new", Some 6%Q)].

End DrNewRules.

(** ** Vintage cost tables of [gen_ccs_new] and [stor_ccs_new_lin] *)

Module VintageCosts.
Import StorH2.

(** The loop over the rows of an optional column: a cell is [None] when it
    holds the dot that stands for no value. *)
Fixpoint limits_from (rows : list (string * Z * option Q))
    (project_vintages : list (string * Z)) (cumulative : gmap (string * Z) Q)
    : list (string * Z) * gmap (string * Z) Q :=
  match rows with
  | [] => (project_vintages, cumulative)
  | (project, vintage, Some limit) :: rest =>
      limits_from rest (project_vintages ++ [(project, vintage)])
        (<[(project, vintage) := limit]> cumulative)
  | (_, _, None) :: rest => limits_from rest project_vintages cumulative
  end.

(** The two assignments to [data_portal.data()]: the set only when the
    list is not empty, the parameter always. *)
Definition set_limits (dp : data_portal) (set_name param_name : string)
    (in_header : bool) (rows : list (string * Z * option Q)) : data_portal :=
  let limits := if in_header then limits_from rows [] ∅ else ([], ∅) in
  DataPortal
    (match limits.1 with
     | [] => portal_sets dp
     | _ :: _ => <[set_name := limits.1]> (portal_sets dp)
     end)
    (<[param_name := limits.2]> (portal_params dp)).

(** A data row of [new_build_generator_ccs_vintage_costs.tab]. *)
Record gen_row := GenRow {
  gen_project : string;
  gen_vintage : Z;
  lifetime_yrs : Q;
  ccs_lifetime_yrs : Q;
  annualized_real_cost_per_mw_yr : Q;
  annualized_real_cost_per_tonne_yr : Q;
  min_cumulative_new_build_mw : option Q;
  max_cumulative_new_build_mw : option Q;
}.

(** The table: which optional columns its header has, and its rows. *)
Record gen_table := GenTable {
  gen_has_min : bool;
  gen_has_max : bool;
  gen_rows : list gen_row;
}.

Definition gen_key (r : gen_row) : string * Z := (gen_project r, gen_vintage r).

Definition gen_column (t : gen_table) (f : gen_row → Q) : gmap (string * Z) Q :=
  list_to_map ((λ r, (gen_key r, f r)) <$> gen_rows t).

(** [load_model_data] of [gen_ccs_new]. *)
Definition gen_ccs_new_load_model_data (dp : data_portal) (t : gen_table) : data_portal :=
  let dp :=
    DataPortal
      (<["GEN_CCS_NEW_VNTS" := gen_key <$> gen_rows t]> (portal_sets dp))
      (<["gen_ccs_new_gen_lifetime_yrs_by_vintage" := gen_column t lifetime_yrs]>
         (<["gen_ccs_new_ccs_lifetime_yrs_by_vintage" := gen_column t ccs_lifetime_yrs]>
            (<["gen_ccs_new_gen_annualized_real_cost_per_mw_yr"
               := gen_column t annualized_real_cost_per_mw_yr]>
               (<["gen_ccs_new_ccs_annualized_real_cost_per_tonne_yr"
                  := gen_column t annualized_real_cost_per_tonne_yr]>
                  (portal_params dp))))) in
  let dp :=
    set_limits dp "GEN_CCS_NEW_VNTS_W_MIN_CONSTRAINT"
      "gen_ccs_new_min_cumulative_new_build_mw" (gen_has_min t)
      ((λ r, (gen_project r, gen_vintage r, min_cumulative_new_build_mw r))
         <$> gen_rows t) in
  set_limits dp "GEN_CCS_NEW_VNTS_W_MAX_CONSTRAINT"
    "gen_ccs_new_max_cumulative_new_build_mw" (gen_has_max t)
    ((λ r, (gen_project r, gen_vintage r, max_cumulative_new_build_mw r))
       <$> gen_rows t).

(** A data row of [new_build_stor_ccs_vintage_costs.tab]. *)
Record stor_row := StorRow {
  stor_project : string;
  stor_vintage : Z;
  stor_lifetime_yrs : Q;
  stor_annualized_real_cost_per_tonne_yr : Q;
  min_cumulative_new_build_tonne : option Q;
  max_cumulative_new_build_tonne : option Q;
}.

Record stor_table := StorTable {
  stor_has_min : bool;
  stor_has_max : bool;
  stor_rows : list stor_row;
}.

Definition stor_key (r : stor_row) : string * Z := (stor_project r, stor_vintage r).

Definition stor_column (t : stor_table) (f : stor_row → Q) : gmap (string * Z) Q :=
  list_to_map ((λ r, (stor_key r, f r)) <$> stor_rows t).

(** [load_model_data] of [stor_ccs_new_lin]. *)
Definition stor_ccs_new_lin_load_model_data (dp : data_portal) (t : stor_table)
    : data_portal :=
  let dp :=
    DataPortal
      (<["STOR_CCS_NEW_LIN_VNTS" := stor_key <$> stor_rows t]> (portal_sets dp))
      (<["stor_ccs_new_lin_lifetime_yrs" := stor_column t stor_lifetime_yrs]>
         (<["stor_ccs_new_lin_annualized_real_cost_per_tonne_yr"
            := stor_column t stor_annualized_real_cost_per_tonne_yr]>
            (portal_params dp))) in
  let dp :=
    set_limits dp "STOR_CCS_NEW_LIN_VNTS_W_MIN_MASS_CONSTRAINT"
      "stor_ccs_new_lin_min_cumulative_new_build_tonne" (stor_has_min t)
      ((λ r, (stor_project r, stor_vintage r, min_cumulative_new_build_tonne r))
         <$> stor_rows t) in
  set_limits dp "STOR_CCS_NEW_LIN_VNTS_W_MAX_MASS_CONSTRAINT"
    "stor_ccs_new_lin_max_cumulative_new_build_tonne" (stor_has_max t)
    ((λ r, (stor_project r, stor_vintage r, max_cumulative_new_build_tonne r))
       <$> stor_rows t).

(** Two vintages of a generator, the first with a minimum, none with a
    maximum. *)
Definition gas_table : gen_table :=
  GenTable true true
    [GenRow "GasCCS" 2020 20 20 100 30 (Some 50%Q) None;
     GenRow "GasCCS" 2030 20 20 90 25 None None].

(** Two vintages of a store, the second with a maximum; no minimum column. *)
Definition cavern_table : stor_table :=
  StorTable false true
    [StorRow "Cavern" 2020 30 10 None None;
     StorRow "Cavern" 2030 30 8 None (Some 700%Q)].

End VintageCosts.

(** * Properties *)

Lemma Qlt_bool_iff (x y : Q) : Qlt_bool x y = true ↔ (x < y)%Q.
Proof.
  unfold Qlt_bool. rewrite negb_true_iff. split.
  - intros H. apply Qnot_le_lt. intros Hle.
    apply Qle_bool_iff in Hle. congruence.
  - intros H. destruct (Qle_bool y x) eqn:E; [|done].
    apply Qle_bool_iff in E. exfalso. apply (Qlt_not_le _ _ H E).
Qed.

(** ** Vintage windows of [mass_new_lin] *)

Section MassNewLinFacts.
Import MassNewLin.

Lemma operational_true (m : model) (g : string) (v p : Z) :
  operational m g v p = true
  ↔ v ≤ p ∧ (inject_Z p < inject_Z v + mass_new_lin_lifetime_yrs m (g, v))%Q.
Proof.
  unfold operational. rewrite andb_true_iff, Z.leb_le, Qlt_bool_iff. done.
Qed.

Lemma window_loop (m : model) (g : string) (v : Z) (periods acc : list Z) :
  fold_left
    (λ operational_periods p,
       if operational m g v p then operational_periods ++ [p]
       else operational_periods) periods acc
  = acc ++ filter (λ p, Is_true (operational m g v p)) periods.
Proof.
  revert acc. induction periods as [|p periods IH]; intros acc; simpl.
  - by rewrite app_nil_r.
  - rewrite IH, filter_cons.
    destruct (decide (Is_true (operational m g v p))) as [Hop|Hop];
      destruct (operational m g v p); try done.
    by rewrite <- app_assoc.
Qed.

Lemma window_filter (m : model) (g : string) (v : Z) :
  operational_periods_by_new_build_transmission_vintage m g v
  = filter (λ p, Is_true (operational m g v p)) (PERIODS m).
Proof. unfold operational_periods_by_new_build_transmission_vintage. by rewrite window_loop. Qed.

Lemma window_elem (m : model) (g : string) (v p : Z) :
  p ∈ operational_periods_by_new_build_transmission_vintage m g v
  ↔ p ∈ PERIODS m ∧ v ≤ p
    ∧ (inject_Z p < inject_Z v + mass_new_lin_lifetime_yrs m (g, v))%Q.
Proof.
  rewrite window_filter, list_elem_of_filter, Is_true_true, operational_true. tauto.
Qed.

Lemma window_NoDup (m : model) (g : string) (v : Z) :
  NoDup (PERIODS m) → NoDup (operational_periods_by_new_build_transmission_vintage m g v).
Proof. intros H. rewrite window_filter. by apply NoDup_filter. Qed.

Lemma bind_pair_fmap (g : string) (w : list Z) :
  (p ← w; [(g, p)]) = (λ p, (g, p)) <$> w.
Proof. induction w as [|p w IH]; [done|]. simpl. by f_equal. Qed.

Lemma length_elements_list_to_set (l : list (string * Z)) :
  NoDup l → length (elements (list_to_set (C := gset (string * Z)) l)) = length l.
Proof. intros Hnd. by apply (size_list_to_set (C := gset (string * Z))). Qed.

Lemma operational_pairs_elem (m : model) (vnts : list (string * Z)) (g : string) (p : Z) :
  (g, p) ∈ operational_pairs m vnts
  ↔ ∃ v, (g, v) ∈ vnts ∧ p ∈ operational_periods_by_new_build_transmission_vintage m g v.
Proof.
  unfold operational_pairs. rewrite elem_of_list_to_set, list_elem_of_bind. split.
  - intros ([g' v] & Hin & Hgv). apply list_elem_of_bind in Hin as (p' & Hin & Hp').
    apply list_elem_of_singleton in Hin. simplify_eq/=. eauto.
  - intros (v & Hv & Hp). exists (g, v). split; [|done].
    apply list_elem_of_bind. exists p. split; [apply list_elem_of_singleton; done|done].
Qed.

(** C1 (as amended).  The window of a vintage is the ordered subset of the
    periods whose labels lie in the right-open interval [[v, v + L)]: a
    period labelled exactly [v + L] is excluded and a lifetime of zero
    gives the empty window.  The rule compares period labels; on a
    collection whose start years equal the labels this is the interval of
    start years [start_year(v) <= start_year(p) < start_year(v) + L]. *)
Theorem window_is_label_interval (m : model) (g : string) (v : Z) :
  sublist (operational_periods_by_new_build_transmission_vintage m g v) (PERIODS m)
  ∧ (∀ p, p ∈ operational_periods_by_new_build_transmission_vintage m g v
          ↔ p ∈ PERIODS m ∧ v ≤ p
            ∧ (inject_Z p < inject_Z v + mass_new_lin_lifetime_yrs m (g, v))%Q)
  ∧ (∀ p, (inject_Z p == inject_Z v + mass_new_lin_lifetime_yrs m (g, v))%Q
          → p ∉ operational_periods_by_new_build_transmission_vintage m g v)
  ∧ ((mass_new_lin_lifetime_yrs m (g, v) == 0)%Q
     → operational_periods_by_new_build_transmission_vintage m g v = [])
  ∧ ((∀ p, p ∈ PERIODS m → period_start_year m p = p)
     → period_start_year m v = v
     → ∀ p, p ∈ operational_periods_by_new_build_transmission_vintage m g v
            ↔ p ∈ PERIODS m ∧ in_start_year_interval m g v p).
Proof.
  split_and!.
  - rewrite window_filter. apply sublist_filter.
  - apply window_elem.
  - intros p Heq Hin. apply window_elem in Hin as (_ & _ & Hlt).
    rewrite Heq in Hlt. by apply Qlt_irrefl in Hlt.
  - intros HL. apply elem_of_nil_inv. intros p Hin.
    apply window_elem in Hin as (_ & Hle & Hlt).
    rewrite HL, Qplus_0_r, <- Zlt_Qlt in Hlt. lia.
  - intros Hlabel Hv p. rewrite window_elem. unfold in_start_year_interval.
    rewrite Hv. split.
    + intros (Hin & Hle & Hlt). rewrite (Hlabel p Hin). done.
    + intros (Hin & Hle & Hlt). rewrite (Hlabel p Hin) in Hle, Hlt. done.
Qed.

(** The specification scenario: vintage 2020 with a lifetime of ten years
    over the periods 2020, 2025, 2030 and 2035 whose start years are their
    labels; 2030 is not in the window, 2025 is. *)
Lemma window_is_label_interval_witness :
  2025 ∈ operational_periods_by_new_build_transmission_vintage two_vintages "Line1" 2020
  ∧ 2030 ∉ operational_periods_by_new_build_transmission_vintage two_vintages "Line1" 2020.
Proof.
  destruct (window_is_label_interval two_vintages "Line1" 2020)
    as (_ & _ & Hedge & _ & Hyears).
  split.
  - apply Hyears; [done|done|]. split; [compute_done|].
    split; [simpl; lia|]. reflexivity.
  - apply Hedge. reflexivity.
Defined.

(** C1 (as stated) fails when a start year differs from the label: the
    period labelled 2030 starts in 2025, inside the eight years of life of
    the 2020 vintage, and the rule leaves it out of the window. *)
Lemma window_ignores_start_years :
  2030 ∈ PERIODS offset_periods
  ∧ in_start_year_interval offset_periods "Line1" 2020 2030
  ∧ 2030 ∉ operational_periods_by_new_build_transmission_vintage offset_periods "Line1" 2020.
Proof.
  split; [compute_done|]. split.
  - split; [simpl; lia|]. reflexivity.
  - compute_done.
Qed.

(** C7.  For the same periods, line and vintage, a lifetime at least as
    long gives a window that contains the window of the shorter one. *)
Theorem window_monotone_in_lifetime (m1 m2 : model) (g : string) (v : Z) :
  PERIODS m1 = PERIODS m2 →
  (mass_new_lin_lifetime_yrs m1 (g, v) <= mass_new_lin_lifetime_yrs m2 (g, v))%Q →
  operational_periods_by_new_build_transmission_vintage m1 g v
  ⊆ operational_periods_by_new_build_transmission_vintage m2 g v.
Proof.
  intros HP HL p. rewrite !window_elem, HP. intros (Hin & Hle & Hlt).
  split_and!; [done|done|]. eapply Qlt_le_trans; [exact Hlt|].
  apply Qplus_le_r. exact HL.
Qed.

Lemma window_monotone_in_lifetime_witness :
  operational_periods_by_new_build_transmission_vintage
    (with_lifetime two_vintages 5) "Line1" 2020
  ⊆ operational_periods_by_new_build_transmission_vintage
      (with_lifetime two_vintages 15) "Line1" 2020.
Proof.
  apply (window_monotone_in_lifetime (with_lifetime two_vintages 5)
           (with_lifetime two_vintages 15) "Line1" 2020).
  - reflexivity.
  - simpl. discriminate.
Defined.

(** C8.  The relation built from the windows of the vintages has no
    duplicate pair; for two vintages of one line whose windows share no
    period its size is the sum of the sizes of the two windows; and
    listing the vintages in another order gives the same pairs. *)
Theorem operational_periods_union (m : model) :
  NoDup (new_build_transmission_operational_periods m)
  ∧ (∀ g v1 v2,
       MASS_NEW_LIN_VNTS m = [(g, v1); (g, v2)] →
       NoDup (PERIODS m) →
       (∀ p, p ∈ OPR_PRDS_BY_MASS_NEW_LIN_VINTAGE m (g, v1) →
             p ∉ OPR_PRDS_BY_MASS_NEW_LIN_VINTAGE m (g, v2)) →
       length (new_build_transmission_operational_periods m)
       = (length (OPR_PRDS_BY_MASS_NEW_LIN_VINTAGE m (g, v1))
          + length (OPR_PRDS_BY_MASS_NEW_LIN_VINTAGE m (g, v2)))%nat)
  ∧ (∀ m',
       PERIODS m' = PERIODS m →
       (∀ gv, mass_new_lin_lifetime_yrs m' gv = mass_new_lin_lifetime_yrs m gv) →
       MASS_NEW_LIN_VNTS m' ≡ₚ MASS_NEW_LIN_VNTS m →
       new_build_transmission_operational_periods m'
       ≡ₚ new_build_transmission_operational_periods m).
Proof.
  split_and!.
  - unfold new_build_transmission_operational_periods. apply NoDup_elements.
  - intros g v1 v2 Hvnts Hnd Hdisj.
    unfold new_build_transmission_operational_periods, operational_pairs.
    rewrite Hvnts. simpl. rewrite app_nil_r, !bind_pair_fmap.
    rewrite length_elements_list_to_set, length_app, !length_fmap; [done|].
    apply NoDup_app. split_and!.
    + apply (NoDup_fmap_2 _). by apply window_NoDup.
    + intros x Hx1 Hx2.
      apply list_elem_of_fmap in Hx1 as (p1 & -> & Hp1).
      apply list_elem_of_fmap in Hx2 as (p2 & Heq & Hp2). simplify_eq.
      by apply (Hdisj p2).
    + apply (NoDup_fmap_2 _). by apply window_NoDup.
  - intros m' HP HL Hperm. unfold new_build_transmission_operational_periods.
    apply reflexive_eq. f_equal. apply set_eq. intros [g p]. rewrite !operational_pairs_elem.
    split; intros (v & Hv & Hp); exists v.
    + rewrite Hperm in Hv. split; [done|].
      apply window_elem. apply window_elem in Hp. rewrite <- HP, <- HL. done.
    + rewrite <- Hperm in Hv. split; [done|].
      apply window_elem. apply window_elem in Hp. rewrite HP, HL. done.
Qed.

Lemma operational_periods_union_witness :
  length (new_build_transmission_operational_periods two_vintages)
  = Nat.add (length (OPR_PRDS_BY_MASS_NEW_LIN_VINTAGE two_vintages ("Line1", 2020)))
            (length (OPR_PRDS_BY_MASS_NEW_LIN_VINTAGE two_vintages ("Line1", 2030))).
Proof.
  apply (proj1 (proj2 (operational_periods_union two_vintages)) "Line1" 2020 2030).
  - reflexivity.
  - compute_done.
  - apply Forall_forall. compute_done.
Defined.

End MassNewLinFacts.


(** ** Linked timepoints of [stor_H2] *)

Section StorH2Facts.
Import StorH2.

Variable check_if_first_timepoint : model → Z → string → bool.
Variable check_boundary_type : model → Z → string → string → bool.

Local Abbreviation rule := (H2_tracking_rule check_if_first_timepoint check_boundary_type).

(** The rule skips exactly at the first timepoint of a linear segment. *)
Lemma tracking_skip_iff (m : model) (s : string) (tmp : Z) :
  rule m s tmp = Ok Skip
  ↔ check_if_first_timepoint m tmp (balancing_type_project m s)
    && check_boundary_type m tmp (balancing_type_project m s) "linear" = true.
Proof.
  unfold H2_tracking_rule.
  destruct (check_if_first_timepoint m tmp _ && check_boundary_type m tmp _ "linear");
    [done|].
  split; [|done].
  destruct (check_if_first_timepoint m tmp _ && check_boundary_type m tmp _ "linked");
    simpl; [|done].
  unfold param.
  destruct (hrs_in_linked_tmp m !! 0); simpl; [|done].
  destruct (stor_linked_starting_H2_in_storage m !! (s, 0)); simpl; [|done].
  destruct (stor_H2_linked_discharge m !! (s, 0)); simpl; [|done].
  destruct (stor_H2_linked_charge m !! (s, 0)); simpl; done.
Qed.

(** At the first timepoint of a linked segment the rule never returns: it
    fails on a linked parameter that was not loaded, or else on the local
    [prev_tmp_weight], which the linked branch does not assign. *)
Lemma tracking_linked_raises (m : model) (s : string) (tmp : Z) :
  check_if_first_timepoint m tmp (balancing_type_project m s) = true →
  check_boundary_type m tmp (balancing_type_project m s) "linked" = true →
  check_boundary_type m tmp (balancing_type_project m s) "linear" = false →
  rule m s tmp =
    match hrs_in_linked_tmp m !! 0,
          stor_linked_starting_H2_in_storage m !! (s, 0),
          stor_H2_linked_discharge m !! (s, 0),
          stor_H2_linked_charge m !! (s, 0) with
    | None, _, _, _ => Raise (KeyError "hrs_in_linked_tmp")
    | Some _, None, _, _ => Raise (KeyError "stor_linked_starting_H2_in_storage")
    | Some _, Some _, None, _ => Raise (KeyError "stor_H2_linked_discharge")
    | Some _, Some _, Some _, None => Raise (KeyError "stor_H2_linked_charge")
    | Some _, Some _, Some _, Some _ => Raise (UnboundLocalError "prev_tmp_weight")
    end.
Proof.
  intros Hfirst Hlinked Hlinear. unfold H2_tracking_rule.
  rewrite Hfirst, Hlinked, Hlinear. simpl. unfold param.
  destruct (hrs_in_linked_tmp m !! 0); simpl; [|done].
  destruct (stor_linked_starting_H2_in_storage m !! (s, 0)); simpl; [|done].
  destruct (stor_H2_linked_discharge m !! (s, 0)); simpl; [|done].
  destruct (stor_H2_linked_charge m !! (s, 0)); simpl; done.
Qed.

(** Away from the first timepoint of a linear or linked segment the
    relation is built on the variables of the previous timepoint. *)
Lemma tracking_interior (m : model) (s : string) (tmp : Z) :
  check_if_first_timepoint m tmp (balancing_type_project m s) = false →
  ∃ rhs, rule m s tmp
         = Ok (Built (ConstraintEq (Var "Stor_Starting_H2_in_Storage_MWh" (s, tmp)) rhs)).
Proof.
  intros Hfirst. unfold H2_tracking_rule. rewrite Hfirst. simpl. eauto.
Qed.

End StorH2Facts.

Section StorH2Files.
Import StorH2.

(** With no loaded data a linked parameter of the instance is empty. *)
Lemma linked_param_absent (dp : data_portal) (index : list (string * Z)) (name : string) :
  portal_params dp !! name = None → linked_param dp index name = Ok ∅.
Proof.
  intros Hnone. unfold linked_param. rewrite Hnone. simpl.
  rewrite bool_decide_eq_true_2; [done|]. rewrite dom_empty_L. set_solver.
Qed.

(** [export_results] never writes the file that [load_model_data] reads. *)
Lemma export_keeps_linked_inputs
    (check_for_tmps_to_link : string → Z → string → list Z * gmap Z Z)
    (fs : filesystem) (m : model) (solution : string → string * Z → Q)
    (scenario_directory : string) (subproblem : Z) (stage : string)
    (scenario_directory' : string) (subproblem' : Z) (stage' : string) :
  (export_results check_for_tmps_to_link fs m solution
     scenario_directory subproblem stage).1
    !! linked_inputs_filename scenario_directory' subproblem' stage'
  = fs !! linked_inputs_filename scenario_directory' subproblem' stage'.
Proof.
  unfold export_results, linked_inputs_filename, linked_outputs_filename.
  destruct (check_for_tmps_to_link _ _ _) as [[|t tmps] dict]; simpl.
  - by rewrite lookup_insert_ne by (intros [=]).
  - destruct (getattr_set m "GEN_H2_OPR_TMPS") as [opr|e]; simpl.
    + destruct (write_linked_rows _ _ _ _ _ _) as [rows r]; simpl.
      by rewrite !lookup_insert_ne by (intros [=]).
    + by rewrite !lookup_insert_ne by (intros [=]).
Qed.

(** C2.  On the run with one storage project whose horizon starts at
    timepoint 1 with a linked boundary and whose linked values (40 in
    storage, no charge, no discharge) are loaded, the tracking rule at
    timepoint 1 reads the linked values and then fails on the unassigned
    local [prev_tmp_weight]: no constraint referring to the value 40 is
    built.  With a linear boundary the constraint at timepoint 1 is
    skipped, and at timepoint 2 it is built on the variables of
    timepoint 1. *)
Theorem linked_first_timepoint_is_not_built :
  H2_tracking_rule first_of_horizon linked_boundary
    (cavern (Some (40, 0, 0)%Q)) "Cavern" 1
  = Raise (UnboundLocalError "prev_tmp_weight")
  ∧ H2_tracking_rule first_of_horizon linear_boundary
      (cavern (Some (40, 0, 0)%Q)) "Cavern" 1
    = Ok Skip
  ∧ ∃ rhs, H2_tracking_rule first_of_horizon linked_boundary
             (cavern (Some (40, 0, 0)%Q)) "Cavern" 2
           = Ok (Built (ConstraintEq
                          (Var "Stor_Starting_H2_in_Storage_MWh" ("Cavern", 2)) rhs)).
Proof.
  split_and!.
  - rewrite tracking_linked_raises; reflexivity.
  - apply tracking_skip_iff. reflexivity.
  - apply tracking_interior. reflexivity.
Qed.

(** C6 (as stated) fails: with no linked-timepoint file in the inputs of
    the subproblem and a horizon whose boundary is linked, the inputs load
    and the instance is created, but the tracking constraint of the first
    timepoint is not skipped: the rule reads the linked starting state,
    which was never loaded, and the build stops on that lookup. *)
Lemma absent_file_linked_boundary_raises :
  (∅ : filesystem) !! linked_inputs_filename "scenario" 1 "1" = None
  ∧ load_model_data optype_data_only ∅ (cavern None) (DataPortal ∅ ∅) "scenario" 1 "1"
    = Ok (DataPortal ∅ ∅)
  ∧ build_subproblem first_of_horizon linked_boundary optype_data_only
      ∅ (cavern None) (DataPortal ∅ ∅) "scenario" 1 "1"
    = Raise (KeyError "stor_linked_starting_H2_in_storage").
Proof. split_and!; reflexivity. Qed.

(** C6 (as amended).  When the linked-timepoint file is absent the load
    step returns what the operational-type loader returned, with no linked
    value added, and the instance is created with empty linked parameters.
    The tracking rule does not look at the file: it skips exactly at the
    first timepoint of a linear segment, and at the first timepoint of a
    linked segment it reads the linked parameters and, none being loaded,
    raises a lookup error. *)
Theorem absent_linked_file_is_not_a_skip
    (check_if_first_timepoint : model → Z → string → bool)
    (check_boundary_type : model → Z → string → string → bool)
    (load_optype_model_data :
       model → data_portal → string → Z → string → string → result data_portal)
    (fs : filesystem) (m : model) (dp dp' : data_portal)
    (scenario_directory : string) (subproblem : Z) (stage : string) :
  fs !! linked_inputs_filename scenario_directory subproblem stage = None →
  load_optype_model_data m dp scenario_directory subproblem stage "stor_H2" = Ok dp' →
  load_model_data load_optype_model_data fs m dp scenario_directory subproblem stage
  = Ok dp'
  ∧ (portal_params dp' = ∅ →
     ∃ instance, create_instance m dp' = Ok instance
       ∧ stor_linked_starting_H2_in_storage instance = ∅
       ∧ stor_H2_linked_discharge instance = ∅
       ∧ stor_H2_linked_charge instance = ∅)
  ∧ (∀ instance s tmp,
       H2_tracking_rule check_if_first_timepoint check_boundary_type instance s tmp
       = Ok Skip
       ↔ check_if_first_timepoint instance tmp (balancing_type_project instance s)
         && check_boundary_type instance tmp (balancing_type_project instance s) "linear"
         = true)
  ∧ (∀ instance s tmp,
       check_if_first_timepoint instance tmp (balancing_type_project instance s) = true →
       check_boundary_type instance tmp (balancing_type_project instance s) "linked" = true →
       check_boundary_type instance tmp (balancing_type_project instance s) "linear" = false →
       stor_linked_starting_H2_in_storage instance = ∅ →
       ∃ name,
         H2_tracking_rule check_if_first_timepoint check_boundary_type instance s tmp
         = Raise (KeyError name)).
Proof.
  intros Hfile Hload. split_and!.
  - unfold load_model_data. rewrite Hload. simpl. by rewrite Hfile.
  - intros Hparams. unfold create_instance.
    rewrite !linked_param_absent by (by rewrite Hparams). simpl. eauto.
  - intros instance s tmp. apply tracking_skip_iff.
  - intros instance s tmp Hfirst Hlinked Hlinear Hempty.
    rewrite tracking_linked_raises by done. rewrite Hempty, lookup_empty.
    destruct (hrs_in_linked_tmp instance !! 0); eauto.
Qed.

Lemma absent_linked_file_is_not_a_skip_witness :
  load_model_data optype_data_only ∅ (cavern None) (DataPortal ∅ ∅) "scenario" 1 "1"
  = Ok (DataPortal ∅ ∅)
  ∧ ∃ name, H2_tracking_rule first_of_horizon linked_boundary (cavern None) "Cavern" 1
            = Raise (KeyError name).
Proof.
  destruct (absent_linked_file_is_not_a_skip first_of_horizon linked_boundary
              optype_data_only ∅ (cavern None) (DataPortal ∅ ∅) (DataPortal ∅ ∅)
              "scenario" 1 "1") as (Hload & _ & _ & Hraise).
  - reflexivity.
  - reflexivity.
  - split; [exact Hload|]. apply Hraise; reflexivity.
Defined.

(** C9.  Subproblem 1 has timepoint 2 to link.  The export returns and
    writes, in the inputs of subproblem 2, a file named for the hydrogen
    generator with its two columns; the file the load step of subproblem 2
    looks for is not there, so that step loads no linked value.  With
    nothing to link no linked-timepoint file is written.  In a run without
    the components of the hydrogen generator the export stops on the
    missing attribute, again without the file the load step reads. *)
Theorem export_writes_gen_H2_file :
  exported.2 = Ok ()
  ∧ exported.1 !! ["scenario"; "2"; "1"; "inputs"; "gen_H2_linked_timepoint_params.tab"]
    = Some [CStr <$> ["project"; "linked_timepoint"; "linked_charge"; "linked_H2"];
            [CStr "Electrolyzer"; CInt 0; CNum 40; CNum 40]]
  ∧ linked_inputs_filename "scenario" 2 "1"
    = ["scenario"; "2"; "1"; "inputs"; "stor_H2_linked_timepoint_params.tab"]
  ∧ exported.1 !! linked_inputs_filename "scenario" 2 "1" = None
  ∧ load_model_data optype_data_only exported.1 (cavern None) (DataPortal ∅ ∅)
      "scenario" 2 "1"
    = Ok (DataPortal ∅ ∅)
  ∧ exported_unlinked.2 = Ok ()
  ∧ exported_unlinked.1
      !! ["scenario"; "2"; "1"; "inputs"; "gen_H2_linked_timepoint_params.tab"]
    = None
  ∧ exported_alone.2 = Raise (AttributeError "GEN_H2_OPR_TMPS")
  ∧ exported_alone.1 !! linked_inputs_filename "scenario" 2 "1" = None.
Proof.
  split_and!; [reflexivity..| |reflexivity|reflexivity|reflexivity|reflexivity|].
  - unfold exported. by rewrite export_keeps_linked_inputs.
  - unfold exported_alone. by rewrite export_keeps_linked_inputs.
Qed.

End StorH2Files.

(** ** Sums of registered components *)

Lemma value_fold_add (ρ : string → string * Z → Q) (terms : list expr) (a : expr) :
  (value ρ (fold_left Add terms a)
   == value ρ a + foldr (λ t acc, value ρ t + acc) 0 terms)%Q.
Proof.
  revert a. induction terms as [|t terms IH]; intros a; simpl.
  - ring.
  - rewrite IH. simpl. ring.
Qed.

Lemma value_py_sum (ρ : string → string * Z → Q) (terms : list expr) :
  (value ρ (py_sum terms) == foldr (λ t acc, value ρ t + acc) 0 terms)%Q.
Proof. unfold py_sum. rewrite value_fold_add. simpl. ring. Qed.

Section CcsBalanceFacts.
Import CcsBalance.

Lemma mapM_component_at (m : model) (z : string) (tmp : Z) (components : list string) :
  (∀ c, c ∈ components → is_Some (expressions m !! c)) →
  ∃ terms, mapM (component_at m z tmp) components = Ok terms
    ∧ ∀ ρ, (foldr (λ t acc, value ρ t + acc) 0 terms == total ρ m z tmp components)%Q.
Proof.
  induction components as [|c components IH]; intros Hall; simpl.
  - exists []. split; [done|]. intros ρ. reflexivity.
  - destruct IH as (terms & Hterms & Hsum).
    { intros c' Hc'. apply Hall. by right. }
    destruct (Hall c) as [e He]; [by left|].
    exists (e (z, tmp) :: terms). split.
    + unfold component_at in *. rewrite He. simpl. rewrite Hterms. done.
    + intros ρ. specialize (Hsum ρ). unfold total in *. simpl.
      rewrite He, Hsum. reflexivity.
Qed.

(** C5.  The module appends the unserved-CCS expression to the production
    registry and the over-CCS expression to the consumption registry and
    attaches both expressions to the model; and for every zone and
    timepoint the rule, over registries whose names all resolve, returns
    the equality of the sum of the registered production components with
    the sum of the registered consumption components. *)
Theorem meet_ccs_balances_registered (m : model) (d : DynamicComponents) :
  ccs_balance_production_components (add_model_components m d).2
  = ccs_balance_production_components d ++ ["Unserved_CCS_Expression"]
  ∧ ccs_balance_consumption_components (add_model_components m d).2
    = ccs_balance_consumption_components d ++ ["Over_CCS_Expression"]
  ∧ expressions (add_model_components m d).1 !! "Unserved_CCS_Expression"
    = Some (λ i, unserved_ccs_expression_rule m i.1 i.2)
  ∧ expressions (add_model_components m d).1 !! "Over_CCS_Expression"
    = Some (λ i, over_ccs_expression_rule m i.1 i.2)
  ∧ ∀ d' m' z tmp,
      (∀ c, c ∈ ccs_balance_production_components d' → is_Some (expressions m' !! c)) →
      (∀ c, c ∈ ccs_balance_consumption_components d' → is_Some (expressions m' !! c)) →
      ∃ lhs rhs,
        meet_ccs_rule d' m' z tmp = Ok (Built (ConstraintEq lhs rhs))
        ∧ ∀ ρ,
            (value ρ lhs == total ρ m' z tmp (ccs_balance_production_components d'))%Q
            ∧ (value ρ rhs == total ρ m' z tmp (ccs_balance_consumption_components d'))%Q.
Proof.
  split_and!; [done|done|apply lookup_insert_eq| |].
  { simpl. rewrite lookup_insert_ne by done. apply lookup_insert_eq. }
  intros d' m' z tmp Hprod Hcons.
  destruct (mapM_component_at m' z tmp _ Hprod) as (production & Hp & Hpsum).
  destruct (mapM_component_at m' z tmp _ Hcons) as (consumption & Hc & Hcsum).
  exists (py_sum production), (py_sum consumption). split.
  - unfold meet_ccs_rule. rewrite Hp. simpl. rewrite Hc. done.
  - intros ρ. rewrite !value_py_sum, Hpsum, Hcsum. done.
Qed.

(** With this module alone the constraint of a zone and timepoint reads
    [allow_unserved_ccs * Unserved_CCS = allow_over_ccs * Over_CCS]. *)
Lemma meet_ccs_balances_registered_witness :
  ∃ lhs rhs,
    meet_ccs_rule (add_model_components bare unregistered).2
      (add_model_components bare unregistered).1 "Zone1" 1
    = Ok (Built (ConstraintEq lhs rhs))
    ∧ ∀ ρ,
        (value ρ lhs == total ρ (add_model_components bare unregistered).1 "Zone1" 1
                          ["Unserved_CCS_Expression"])%Q
        ∧ (value ρ rhs == total ρ (add_model_components bare unregistered).1 "Zone1" 1
                            ["Over_CCS_Expression"])%Q.
Proof.
  destruct (meet_ccs_balances_registered bare unregistered) as (_ & _ & _ & _ & Hrule).
  apply (Hrule (add_model_components bare unregistered).2
               (add_model_components bare unregistered).1 "Zone1" 1).
  - intros c Hc. apply list_elem_of_singleton in Hc as ->. eexists. reflexivity.
  - intros c Hc. apply list_elem_of_singleton in Hc as ->. eexists. reflexivity.
Defined.

End CcsBalanceFacts.

(** ** Cumulative capacity of [dr_new] *)

Section DrNewFacts.
Import DrNew.

Lemma value_sum_builds (ρ : string → string * Z → Q) (g : string) (l : list Z) :
  (value ρ (py_sum ((λ prev_p, Var "DRNew_Build_MWh" (g, prev_p)) <$> l))
   == foldr (λ prev_p acc, ρ "DRNew_Build_MWh" (g, prev_p) + acc) 0 l)%Q.
Proof.
  rewrite value_py_sum. induction l as [|q l IH]; simpl; [reflexivity|].
  rewrite IH. reflexivity.
Qed.

Lemma builds_up_to_monotone (ρ : string → string * Z → Q) (g : string) (p1 p2 : Z)
    (l : list Z) :
  (∀ i, (0 <= ρ "DRNew_Build_MWh" i)%Q) → p1 ≤ p2 →
  (foldr (λ prev_p acc, ρ "DRNew_Build_MWh" (g, prev_p) + acc) 0
     (filter (λ prev_p, prev_p ≤ p1) l)
   <= foldr (λ prev_p acc, ρ "DRNew_Build_MWh" (g, prev_p) + acc) 0
        (filter (λ prev_p, prev_p ≤ p2) l))%Q.
Proof.
  intros Hpos Hle. induction l as [|q l IH]; simpl; [apply Qle_refl|].
  rewrite !filter_cons. pose proof (Hpos (g, q)) as Hq.
  destruct (decide (q ≤ p1)), (decide (q ≤ p2)); simpl; try lia; lra.
Qed.

Lemma builds_up_to_raise (ρ : string → string * Z → Q) (g : string) (v p : Z) (δ : Q)
    (l : list Z) :
  NoDup l → v ≤ p →
  (foldr (λ prev_p acc, raise_build ρ g v δ "DRNew_Build_MWh" (g, prev_p) + acc) 0
     (filter (λ prev_p, prev_p ≤ p) l)
   == foldr (λ prev_p acc, ρ "DRNew_Build_MWh" (g, prev_p) + acc) 0
        (filter (λ prev_p, prev_p ≤ p) l)
      + (if bool_decide (v ∈ l) then δ else 0))%Q.
Proof.
  intros Hnd Hle. induction Hnd as [|q l Hq Hnd IH]; simpl.
  - ring.
  - rewrite !filter_cons. unfold raise_build at 1.
    destruct (decide (q = v)) as [->|Hne].
    + rewrite decide_True by done. simpl. rewrite IH.
      rewrite (bool_decide_eq_true_2 (_ ∧ _)) by done.
      rewrite (bool_decide_eq_false_2 (v ∈ l)) by done.
      rewrite (bool_decide_eq_true_2 (v ∈ v :: l)) by left. ring.
    + assert (bool_decide (v ∈ q :: l) = bool_decide (v ∈ l)) as ->.
      { apply bool_decide_ext. rewrite elem_of_cons.
        split; [intros [?|?]; [congruence|done]|by right]. }
      destruct (decide (q ≤ p)); simpl; [|exact IH].
      rewrite (bool_decide_eq_false_2 (_ ∧ _)) by (intros [_ [=]]; done).
      rewrite IH. ring.
Qed.

(** C10.  The energy capacity of a [dr_new] project in a period is the sum
    of its build variables over the periods up to and including that
    period; with nonnegative builds it does not decrease from a period to a
    later one; a build made in any period counts in full in that period and
    in every later one, whatever the distance; and the operational periods
    of the type are all the periods, with no lifetime read. *)
Theorem dr_new_capacity_is_cumulative (m : model) (g : string) :
  (∀ ρ p, (value ρ (dr_new_energy_capacity_rule m g p) == cumulative_build ρ m g p)%Q)
  ∧ (∀ ρ p1 p2,
       (∀ i, (0 <= ρ "DRNew_Build_MWh" i)%Q) → p1 ≤ p2 →
       (value ρ (dr_new_energy_capacity_rule m g p1)
        <= value ρ (dr_new_energy_capacity_rule m g p2))%Q)
  ∧ (∀ ρ v p δ,
       NoDup (PERIODS m) → v ∈ PERIODS m → v ≤ p →
       (value (raise_build ρ g v δ) (dr_new_energy_capacity_rule m g p)
        == value ρ (dr_new_energy_capacity_rule m g p) + δ)%Q)
  ∧ (∀ p, (g, p) ∈ DR_NEW_OPR_PRDS m ↔ g ∈ DR_NEW m ∧ p ∈ PERIODS m).
Proof.
  split_and!.
  - intros ρ p. unfold dr_new_energy_capacity_rule. apply value_sum_builds.
  - intros ρ p1 p2 Hpos Hle. unfold dr_new_energy_capacity_rule.
    rewrite !value_sum_builds. by apply builds_up_to_monotone.
  - intros ρ v p δ Hnd Hin Hle. unfold dr_new_energy_capacity_rule.
    rewrite !value_sum_builds, builds_up_to_raise by done.
    rewrite bool_decide_eq_true_2; [reflexivity|]. done.
  - intros p. unfold DR_NEW_OPR_PRDS. rewrite list_elem_of_bind. split.
    + intros (g' & Hin & Hg'). apply list_elem_of_bind in Hin as (p' & Hin & Hp').
      apply list_elem_of_singleton in Hin. by simplify_eq.
    + intros [Hg Hp]. exists g. split; [|done]. apply list_elem_of_bind.
      exists p. split; [by apply list_elem_of_singleton|done].
Qed.

(** A build of 5 MWh made in 2020 still counts in 2040, and the capacity of
    2020 does not exceed that of 2040. *)
Lemma dr_new_capacity_is_cumulative_witness :
  (value (raise_build (λ _ _, 1%Q) "Shift1" 2020 5) (dr_new_energy_capacity_rule three_periods "Shift1" 2040)
   == value (λ _ _, 1%Q) (dr_new_energy_capacity_rule three_periods "Shift1" 2040) + 5)%Q
  ∧ (value (λ _ _, 1%Q) (dr_new_energy_capacity_rule three_periods "Shift1" 2020)
     <= value (λ _ _, 1%Q) (dr_new_energy_capacity_rule three_periods "Shift1" 2040))%Q.
Proof.
  destruct (dr_new_capacity_is_cumulative three_periods "Shift1")
    as (_ & Hmono & Hraise & _).
  split.
  - apply Hraise; [compute_done|compute_done|lia].
  - apply Hmono; [intros i; discriminate|lia].
Defined.

End DrNewFacts.

(** ** Registered operational-period sets *)

Section CapacityTypesFacts.
Import CapacityTypes.

Lemma registered_set_gen_ccs_new (m : model) (b : build) :
  registered_set (GenCcsNew.add_model_components m b) = Some (GEN_CCS_NEW_VNTS m).
Proof.
  unfold registered_set. simpl. rewrite last_snoc. simpl.
  rewrite !lookup_insert_ne by done. apply lookup_insert_eq.
Qed.

Lemma registered_set_stor_ccs_new_lin (m : model) (b : build) :
  registered_set (StorCcsNewLin.add_model_components m b)
  = Some (StorCcsNewLin.stor_ccs_new_lin_operational_periods m).
Proof. unfold registered_set. simpl. rewrite last_snoc. apply lookup_insert_eq. Qed.

Lemma registered_set_gen_ccs_spec (m : model) (b : build) :
  registered_set (GenCcsSpec.add_model_components m b) = Some (GEN_CCS_SPEC_OPR_PRDS m).
Proof.
  unfold registered_set. simpl. rewrite last_snoc. simpl.
  rewrite lookup_insert_ne by done. apply lookup_insert_eq.
Qed.

(** C4.  For the project [GasCCS] with the single vintage 2020 and twenty
    years of life over the periods 2020 and 2030, [gen_ccs_new] registers
    the name of its set of vintages: the registered set is the pair
    (GasCCS, 2020) alone, although both of its operational-period sets hold
    (GasCCS, 2030).  The sibling [stor_ccs_new_lin] registers its
    operational-period set, which holds the 2030 pair of its project. *)
Theorem gen_ccs_new_registers_its_vintages :
  capacity_type_operational_period_sets
    (GenCcsNew.add_model_components gas_ccs (Build ∅ []))
  = ["GEN_CCS_NEW_VNTS"]
  ∧ registered_set (GenCcsNew.add_model_components gas_ccs (Build ∅ []))
    = Some [("GasCCS", 2020)]
  ∧ ("GasCCS", 2030) ∈ GenCcsNew.gen_ccs_new_gen_operational_periods gas_ccs
  ∧ ("GasCCS", 2030) ∈ GenCcsNew.gen_ccs_new_ccs_operational_periods gas_ccs
  ∧ attributes (GenCcsNew.add_model_components gas_ccs (Build ∅ []))
      !! "GEN_CCS_NEW_GEN_OPR_PRDS"
    = Some (GenCcsNew.gen_ccs_new_gen_operational_periods gas_ccs)
  ∧ registered_set (StorCcsNewLin.add_model_components gas_ccs (Build ∅ []))
    = Some (StorCcsNewLin.stor_ccs_new_lin_operational_periods gas_ccs)
  ∧ ("Cavern", 2030) ∈ StorCcsNewLin.stor_ccs_new_lin_operational_periods gas_ccs.
Proof.
  split_and!.
  - reflexivity.
  - apply registered_set_gen_ccs_new.
  - compute_done.
  - compute_done.
  - apply lookup_insert_eq.
  - apply registered_set_stor_ccs_new_lin.
  - compute_done.
Qed.

Section Join.
Variable attrs : gmap string (list (string * Z)).

Lemma find_claimed_None (joined : gset (string * Z)) (l : list (string * Z)) (x : string * Z) :
  List.find (λ element, bool_decide (element ∈ joined)) l = None → x ∈ l → x ∉ joined.
Proof.
  intros Hfind Hin Hj. apply list_elem_of_In in Hin.
  pose proof (find_none _ _ Hfind x Hin) as Hb. simpl in Hb.
  by apply bool_decide_eq_false in Hb.
Qed.

Lemma find_claimed_Some (joined : gset (string * Z)) (l : list (string * Z)) (x : string * Z) :
  List.find (λ element, bool_decide (element ∈ joined)) l = Some x → x ∈ l ∧ x ∈ joined.
Proof.
  intros Hfind. apply find_some in Hfind as [Hin Hb].
  split; [by apply list_elem_of_In|by apply bool_decide_eq_true in Hb].
Qed.

Lemma claimed_cons_0 (s : string) (rest : list string) (x : string * Z) :
  claimed attrs (s :: rest) 0 x ↔ ∃ l, attrs !! s = Some l ∧ x ∈ l.
Proof.
  unfold claimed. split.
  - intros (s' & l & Hs & Hl & Hx). simpl in Hs. simplify_eq. eauto.
  - intros (l & Hl & Hx). exists s, l. done.
Qed.

Lemma claimed_cons_S (s : string) (rest : list string) (k : nat) (x : string * Z) :
  claimed attrs (s :: rest) (S k) x ↔ claimed attrs rest k x.
Proof. done. Qed.

(** A join that succeeds has met pairwise disjoint sets. *)
Lemma join_sets_inr (set_list : list string) (joined u : gset (string * Z)) :
  join_sets attrs set_list joined = inr u →
  (∀ k x, claimed attrs set_list k x → x ∉ joined)
  ∧ (∀ k k' x, k ≠ k' → claimed attrs set_list k x → claimed attrs set_list k' x → False).
Proof.
  revert joined. induction set_list as [|s rest IH]; intros joined Hjoin.
  - split; [intros k x (s & l & Hs & _)|intros k k' x _ (s & l & Hs & _)];
      by rewrite lookup_nil in Hs.
  - simpl in Hjoin. destruct (attrs !! s) as [l|] eqn:Hl; [|done].
    destruct (List.find _ l) as [[g p]|] eqn:Hfind; [done|].
    destruct (IH _ Hjoin) as [Hfresh Hdisj]. split.
    + intros [|k] x Hc.
      * apply claimed_cons_0 in Hc as (l' & Hl' & Hx). simplify_eq.
        by eapply find_claimed_None.
      * apply claimed_cons_S in Hc. specialize (Hfresh k x Hc).
        intros Hx. apply Hfresh, elem_of_union. by left.
    + intros [|k] [|k'] x Hne Hc Hc'; [done| | |].
      * apply claimed_cons_0 in Hc as (l' & Hl' & Hx). simplify_eq.
        apply claimed_cons_S in Hc'. apply (Hfresh k' x Hc'), elem_of_union.
        right. by apply elem_of_list_to_set.
      * apply claimed_cons_0 in Hc' as (l' & Hl' & Hx). simplify_eq.
        apply claimed_cons_S in Hc. apply (Hfresh k x Hc), elem_of_union.
        right. by apply elem_of_list_to_set.
      * apply claimed_cons_S in Hc, Hc'. apply (Hdisj k k' x); [lia|done|done].
Qed.

(** A conflict names a pair that an earlier contribution already holds. *)
Lemma join_sets_conflict (set_list : list string) (joined : gset (string * Z))
    (g : string) (p : Z) :
  join_sets attrs set_list joined = inl (ConflictError g p) →
  ∃ k, claimed attrs set_list k (g, p)
       ∧ ((g, p) ∈ joined ∨ ∃ k', (k' < k)%nat ∧ claimed attrs set_list k' (g, p)).
Proof.
  revert joined. induction set_list as [|s rest IH]; intros joined Hjoin; [done|].
  simpl in Hjoin. destruct (attrs !! s) as [l|] eqn:Hl; [|done].
  destruct (List.find _ l) as [[g' p']|] eqn:Hfind.
  - simplify_eq. apply find_claimed_Some in Hfind as [Hin Hj].
    exists 0%nat. split; [|by left]. apply claimed_cons_0. eauto.
  - destruct (IH _ Hjoin) as (k & Hc & Hprev). exists (S k). split; [done|].
    destruct Hprev as [Hj|(k' & Hlt & Hc')].
    + apply elem_of_union in Hj as [Hj|Hj]; [by left|]. right.
      exists 0%nat. split; [lia|]. apply claimed_cons_0.
      exists l. split; [done|]. by apply elem_of_list_to_set in Hj.
    + right. exists (S k'). split; [lia|done].
Qed.

Lemma join_sets_unknown (set_list : list string) (joined : gset (string * Z)) (n : string) :
  join_sets attrs set_list joined = inl (UnknownSet n) → n ∈ set_list ∧ attrs !! n = None.
Proof.
  revert joined. induction set_list as [|s rest IH]; intros joined Hjoin; [done|].
  simpl in Hjoin. destruct (attrs !! s) as [l|] eqn:Hl.
  - destruct (List.find _ l) as [[g' p']|]; [done|].
    destruct (IH _ Hjoin). split; [by right|done].
  - simplify_eq. split; [by left|done].
Qed.

End Join.

(** C3 (on the aggregator as the specification describes it).  When two
    different registered sets hold the same pair and every registered name
    resolves, the join does not return a relation: it stops with a conflict
    error, and the project and period the error names are held by two
    different registered sets. *)
Theorem double_claim_is_conflict (b : build) (i j : nat) (x : string * Z) :
  i ≠ j →
  claimed (attributes b) (capacity_type_operational_period_sets b) i x →
  claimed (attributes b) (capacity_type_operational_period_sets b) j x →
  (∀ n, n ∈ capacity_type_operational_period_sets b → is_Some (attributes b !! n)) →
  ∃ g p,
    PRJ_OPR_PRDS b = inl (ConflictError g p)
    ∧ ∃ k k', (k' < k)%nat
        ∧ claimed (attributes b) (capacity_type_operational_period_sets b) k (g, p)
        ∧ claimed (attributes b) (capacity_type_operational_period_sets b) k' (g, p).
Proof.
  intros Hne Hi Hj Hall. unfold PRJ_OPR_PRDS.
  destruct (join_sets _ _ _) as [[g p|n]|u] eqn:Hjoin.
  - exists g, p. split; [done|].
    apply join_sets_conflict in Hjoin as (k & Hc & [Hempty|(k' & Hlt & Hc')]).
    + set_solver.
    + eauto.
  - apply join_sets_unknown in Hjoin as [Hin Hnone].
    destruct (Hall n Hin) as [l Hl]. congruence.
  - apply join_sets_inr in Hjoin as [_ Hdisj]. destruct (Hdisj i j x Hne Hi Hj).
Qed.

(** The scenario of the specification: the error names ProjectX and 2030. *)
Lemma double_claim_is_conflict_witness :
  PRJ_OPR_PRDS double_claim = inl (ConflictError "ProjectX" 2030)
  ∧ ∃ g p, PRJ_OPR_PRDS double_claim = inl (ConflictError g p)
      ∧ ∃ k k', (k' < k)%nat
          ∧ claimed (attributes double_claim)
              (capacity_type_operational_period_sets double_claim) k (g, p)
          ∧ claimed (attributes double_claim)
              (capacity_type_operational_period_sets double_claim) k' (g, p).
Proof.
  split; [reflexivity|].
  apply (double_claim_is_conflict double_claim 0 1 ("ProjectX", 2030)).
  - lia.
  - eexists _, _. split_and!; [reflexivity|reflexivity|compute_done].
  - eexists _, _. split_and!; [reflexivity|reflexivity|compute_done].
  - intros n Hn. simpl in Hn.
    apply elem_of_cons in Hn as [->|Hn]; [by eexists|].
    apply list_elem_of_singleton in Hn as ->. by eexists.
Defined.

End CapacityTypesFacts.

(** * Further properties *)

(** ** Expression rules of [mass_new_lin] *)

Section MassNewLinRulesFacts.
Import MassNewLin MassNewLinRules.

Lemma vintages_loop (m : model) (p : Z) (vnts acc : list (string * Z)) :
  fold_left
    (λ build_vintages_by_period gv,
       if bool_decide (p ∈ OPR_PRDS_BY_MASS_NEW_LIN_VINTAGE m gv)
       then build_vintages_by_period ++ [gv]
       else build_vintages_by_period) vnts acc
  = acc ++ filter (λ gv, p ∈ OPR_PRDS_BY_MASS_NEW_LIN_VINTAGE m gv) vnts.
Proof.
  revert acc. induction vnts as [|gv vnts IH]; intros acc; simpl.
  - by rewrite app_nil_r.
  - rewrite IH, filter_cons. case_bool_decide.
    + rewrite decide_True by done. by rewrite <- app_assoc.
    + by rewrite decide_False by done.
Qed.

Lemma vintages_filter (m : model) (p : Z) :
  new_build_transmission_vintages_operational_in_period m p
  = filter (λ gv, p ∈ OPR_PRDS_BY_MASS_NEW_LIN_VINTAGE m gv) (MASS_NEW_LIN_VNTS m).
Proof.
  unfold new_build_transmission_vintages_operational_in_period. by rewrite vintages_loop.
Qed.

Lemma vintages_elem (m : model) (p : Z) (g : string) (v : Z) :
  (g, v) ∈ new_build_transmission_vintages_operational_in_period m p
  ↔ (g, v) ∈ MASS_NEW_LIN_VNTS m ∧ p ∈ PERIODS m ∧ v ≤ p
    ∧ (inject_Z p < inject_Z v + mass_new_lin_lifetime_yrs m (g, v))%Q.
Proof.
  rewrite vintages_filter, list_elem_of_filter.
  unfold OPR_PRDS_BY_MASS_NEW_LIN_VINTAGE. simpl. rewrite window_elem. tauto.
Qed.

Lemma operational_pair_period (m : model) (g : string) (p : Z) :
  (g, p) ∈ new_build_transmission_operational_periods m → p ∈ PERIODS m.
Proof.
  unfold new_build_transmission_operational_periods.
  rewrite elem_of_elements, operational_pairs_elem. intros (v & _ & Hw).
  apply window_elem in Hw. tauto.
Qed.

(** X1.  The vintages operational in a period are, in the order of the
    vintage set, the line-vintage pairs whose window holds the period. *)
Theorem vintages_operational_in_period_spec (m : model) (p : Z) :
  sublist (new_build_transmission_vintages_operational_in_period m p)
          (MASS_NEW_LIN_VNTS m)
  ∧ ∀ g v,
      (g, v) ∈ new_build_transmission_vintages_operational_in_period m p
      ↔ (g, v) ∈ MASS_NEW_LIN_VNTS m ∧ p ∈ PERIODS m ∧ v ≤ p
        ∧ (inject_Z p < inject_Z v + mass_new_lin_lifetime_yrs m (g, v))%Q.
Proof.
  split; [rewrite vintages_filter; apply sublist_filter|].
  intros g v. apply vintages_elem.
Qed.

(** X2.  The two derived sets agree: a line is operational in a period
    exactly when one of its vintages is operational in that period. *)
Theorem operational_periods_agree (m : model) (g : string) (p : Z) :
  (g, p) ∈ new_build_transmission_operational_periods m
  ↔ ∃ v, (g, v) ∈ new_build_transmission_vintages_operational_in_period m p.
Proof.
  unfold new_build_transmission_operational_periods.
  rewrite elem_of_elements, operational_pairs_elem.
  split; intros (v & Hv); exists v.
  - apply vintages_elem.
    destruct Hv as [Hin Hw]. apply window_elem in Hw. tauto.
  - apply vintages_elem in Hv. rewrite window_elem. tauto.
Qed.

Lemma vintages_operational_in_period_spec_witness :
  ("Line1", 2030) ∈ new_build_transmission_vintages_operational_in_period fifteen_years 2040.
Proof.
  apply (proj2 (vintages_operational_in_period_spec fifteen_years 2040)).
  split_and!; [compute_done|compute_done|lia|reflexivity].
Defined.

Lemma operational_periods_agree_witness :
  ("Line1", 2040) ∈ new_build_transmission_operational_periods fifteen_years.
Proof.
  apply (operational_periods_agree fifteen_years "Line1" 2040).
  exists 2030. compute_done.
Defined.

Lemma value_sum_fmap {A} (ρ : string → string * Z → Q) (f : A → expr) (l : list A) :
  (value ρ (py_sum (f <$> l)) == foldr (λ x acc, value ρ (f x) + acc) 0 l)%Q.
Proof.
  rewrite value_py_sum. induction l as [|x l IH]; simpl; [reflexivity|].
  rewrite IH. reflexivity.
Qed.

(** Raising one build raises the sum over a duplicate-free list of the
    vintages of one line by the raise when the vintage is listed. *)
Lemma builds_raise (ρ : string → string * Z → Q) (g : string) (v : Z) (δ : Q)
    (l : list (string * Z)) :
  NoDup l → (∀ gv, gv ∈ l → gv.1 = g) →
  (foldr (λ gv acc, raise_var ρ "MassNewLin_Build_Tonne" (g, v) δ
                      "MassNewLin_Build_Tonne" (g, gv.2) + acc) 0 l
   == foldr (λ gv acc, ρ "MassNewLin_Build_Tonne" (g, gv.2) + acc) 0 l
      + (if bool_decide ((g, v) ∈ l) then δ else 0))%Q.
Proof.
  intros Hnd Hg. induction Hnd as [|[g' v'] l Hnotin Hnd IH]; simpl; [ring|].
  assert (g' = g) as -> by (apply (Hg (g', v')); left).
  rewrite IH by (intros gv Hgv; apply Hg; by right). unfold raise_var at 1.
  destruct (decide (v' = v)) as [->|Hne].
  - rewrite (bool_decide_eq_true_2 (_ ∧ _)) by done.
    rewrite (bool_decide_eq_false_2 ((g, v) ∈ l)) by done.
    rewrite (bool_decide_eq_true_2 ((g, v) ∈ (g, v) :: l)) by left. ring.
  - rewrite (bool_decide_eq_false_2 (_ ∧ _)) by (intros [_ [=]]; done).
    assert (bool_decide ((g, v) ∈ (g, v') :: l) = bool_decide ((g, v) ∈ l)) as ->.
    { apply bool_decide_ext. rewrite elem_of_cons.
      split; [intros [[=]|?]; [congruence|done]|by right]. }
    ring.
Qed.

Lemma builds_other_line (ρ : string → string * Z → Q) (g g' : string) (v : Z) (δ : Q)
    (l : list (string * Z)) :
  g' ≠ g →
  (foldr (λ gv acc, raise_var ρ "MassNewLin_Build_Tonne" (g', v) δ
                      "MassNewLin_Build_Tonne" (g, gv.2) + acc) 0 l
   == foldr (λ gv acc, ρ "MassNewLin_Build_Tonne" (g, gv.2) + acc) 0 l)%Q.
Proof.
  intros Hne. induction l as [|gv l IH]; simpl; [reflexivity|].
  rewrite IH. unfold raise_var at 1.
  rewrite (bool_decide_eq_false_2 (_ ∧ _)) by (intros [_ [=]]; done). reflexivity.
Qed.

Lemma line_vintages_elem (m : model) (g : string) (p : Z) (gv : string * Z) :
  gv ∈ filter (λ gv, gv.1 = g) (new_build_transmission_vintages_operational_in_period m p)
  ↔ gv.1 = g ∧ gv ∈ MASS_NEW_LIN_VNTS m
    ∧ p ∈ operational_periods_by_new_build_transmission_vintage m gv.1 gv.2.
Proof.
  rewrite list_elem_of_filter, vintages_filter, list_elem_of_filter.
  unfold OPR_PRDS_BY_MASS_NEW_LIN_VINTAGE. tauto.
Qed.

(** X3.  Outside the periods the capacity rule fails on the index of the
    vintage set.  In a period, the capacity of a line is zero when none of
    its vintages is operational; a unit more built in one of its vintages
    counts, once, in the periods of that vintage's window and in no other
    period; and what is built on another line never counts. *)
Theorem capacity_counts_operational_vintages (m : model) (g : string) (p : Z) :
  (p ∉ PERIODS m →
   mass_new_lin_capacity_rule m g p = Raise (KeyError "MASS_NEW_LIN_VNTS_OPR_IN_PRD"))
  ∧ (p ∈ PERIODS m →
     ∃ e, mass_new_lin_capacity_rule m g p = Ok e
       ∧ ((∀ v, (g, v) ∈ MASS_NEW_LIN_VNTS m →
                p ∉ operational_periods_by_new_build_transmission_vintage m g v) →
          ∀ ρ, (value ρ e == 0)%Q)
       ∧ (NoDup (MASS_NEW_LIN_VNTS m) →
          ∀ ρ v δ, (g, v) ∈ MASS_NEW_LIN_VNTS m →
            (value (raise_var ρ "MassNewLin_Build_Tonne" (g, v) δ) e
             == value ρ e
                + (if bool_decide
                        (p ∈ operational_periods_by_new_build_transmission_vintage m g v)
                   then δ else 0))%Q)
       ∧ (∀ ρ g' v δ, g' ≠ g →
            (value (raise_var ρ "MassNewLin_Build_Tonne" (g', v) δ) e == value ρ e)%Q)).
Proof.
  unfold mass_new_lin_capacity_rule, MASS_NEW_LIN_VNTS_OPR_IN_PRD. split.
  - intros Hp. by rewrite bool_decide_eq_false_2.
  - intros Hp. rewrite bool_decide_eq_true_2 by done. simpl.
    eexists. split; [reflexivity|]. split_and!.
    + intros Hnone ρ. rewrite value_sum_fmap.
      assert (filter (λ gv, gv.1 = g)
                (new_build_transmission_vintages_operational_in_period m p) = []) as ->;
        [|reflexivity].
      apply elem_of_nil_inv. intros [g' v] Hin.
      apply line_vintages_elem in Hin as (Hg & Hin & Hw). simpl in *. subst g'.
      by apply (Hnone v).
    + intros Hnd ρ v δ Hin. rewrite !value_sum_fmap. simpl.
      rewrite builds_raise.
      * apply Qplus_inj_l. erewrite bool_decide_ext; [reflexivity|].
        rewrite line_vintages_elem. simpl. tauto.
      * apply NoDup_filter. rewrite vintages_filter. by apply NoDup_filter.
      * intros gv Hgv. by apply line_vintages_elem in Hgv as (Hg & _).
    + intros ρ g' v δ Hne. rewrite !value_sum_fmap. simpl.
      by apply builds_other_line.
Qed.

(** The docstring's example: the 2020 build of the line counts in 2020 and
    2030, not in 2040. *)
Lemma capacity_counts_operational_vintages_witness :
  ∃ e30 e40,
    mass_new_lin_capacity_rule fifteen_years "Line1" 2030 = Ok e30
    ∧ mass_new_lin_capacity_rule fifteen_years "Line1" 2040 = Ok e40
    ∧ Qeq (value (raise_var (λ _ _, 0%Q) "MassNewLin_Build_Tonne" ("Line1", 2020) 7%Q) e30)
          (value (λ _ _, 0%Q) e30 + 7)%Q
    ∧ Qeq (value (raise_var (λ _ _, 0%Q) "MassNewLin_Build_Tonne" ("Line1", 2020) 7%Q) e40)
          (value (λ _ _, 0%Q) e40 + 0)%Q.
Proof.
  destruct (capacity_counts_operational_vintages fifteen_years "Line1" 2030) as [_ H30].
  destruct (capacity_counts_operational_vintages fifteen_years "Line1" 2040) as [_ H40].
  destruct H30 as (e30 & He30 & _ & Hraise30 & _); [compute_done|].
  destruct H40 as (e40 & He40 & _ & Hraise40 & _); [compute_done|].
  exists e30, e40. split_and!; [done|done| |].
  - apply (Hraise30 ltac:(compute_done) (λ _ _, 0%Q) 2020 7%Q ltac:(compute_done)).
  - apply (Hraise40 ltac:(compute_done) (λ _ _, 0%Q) 2020 7%Q ltac:(compute_done)).
Defined.

End MassNewLinRulesFacts.

Section MassNewLinCostFacts.
Import MassNewLin MassNewLinRules.

Lemma priced_builds_nonneg (ρ : string → string * Z → Q) (cost : string * Z → Q)
    (g : string) (l : list (string * Z)) :
  (∀ i, (0 <= ρ "MassNewLin_Build_Tonne" i)%Q) → (∀ i, (0 <= cost i)%Q) →
  (0 <= foldr (λ gv acc, ρ "MassNewLin_Build_Tonne" (g, gv.2) * cost (g, gv.2) + acc) 0 l)%Q.
Proof.
  intros Hb Hc. induction l as [|gv l IH]; simpl; [apply Qle_refl|].
  pose proof (Qmult_le_0_compat _ _ (Hb (g, gv.2)) (Hc (g, gv.2))). lra.
Qed.

Lemma priced_builds_uniform (ρ : string → string * Z → Q) (cost : string * Z → Q)
    (g : string) (c : Q) (l : list (string * Z)) :
  (∀ gv, gv ∈ l → (cost (g, gv.2) == c)%Q) →
  (foldr (λ gv acc, ρ "MassNewLin_Build_Tonne" (g, gv.2) * cost (g, gv.2) + acc) 0 l
   == c * foldr (λ gv acc, ρ "MassNewLin_Build_Tonne" (g, gv.2) + acc) 0 l)%Q.
Proof.
  intros Hc. induction l as [|gv l IH]; simpl; [ring|].
  rewrite IH by (intros gv' Hgv'; apply Hc; by right).
  rewrite (Hc gv) by left. ring.
Qed.

(** X4.  In a period the capacity cost of a line is never negative when
    builds and unit costs are not; and when every vintage of the line has
    the same unit cost, the cost is that unit cost times the capacity of
    the line in the period. *)
Theorem capacity_cost_of_builds (m : costed) (g : string) (p : Z) :
  p ∈ PERIODS (base m) →
  ∃ cost capacity,
    tx_capacity_cost_rule m g p = Ok cost
    ∧ mass_new_lin_capacity_rule (base m) g p = Ok capacity
    ∧ (∀ ρ, (∀ i, (0 <= ρ "MassNewLin_Build_Tonne" i)%Q) →
            (∀ i, (0 <= mass_new_lin_annualized_real_cost_per_tonne_yr m i)%Q) →
            (0 <= value ρ cost)%Q)
    ∧ (∀ ρ c,
         (∀ v, (g, v) ∈ MASS_NEW_LIN_VNTS (base m) →
               (mass_new_lin_annualized_real_cost_per_tonne_yr m (g, v) == c)%Q) →
         (value ρ cost == c * value ρ capacity)%Q).
Proof.
  intros Hp.
  unfold tx_capacity_cost_rule, mass_new_lin_capacity_rule, MASS_NEW_LIN_VNTS_OPR_IN_PRD.
  rewrite bool_decide_eq_true_2 by done. simpl.
  eexists _, _. split_and!; [reflexivity|reflexivity| |].
  - intros ρ Hb Hc. rewrite value_sum_fmap. simpl. by apply priced_builds_nonneg.
  - intros ρ c Hc. rewrite !value_sum_fmap. simpl. apply priced_builds_uniform.
    intros [g' v] Hgv. apply line_vintages_elem in Hgv as (Hg & Hin & _).
    simpl in *. subst g'. by apply Hc.
Qed.

Lemma capacity_cost_of_builds_witness :
  ∃ cost capacity,
    tx_capacity_cost_rule (Costed fifteen_years (λ _, 3%Q)) "Line1" 2030 = Ok cost
    ∧ mass_new_lin_capacity_rule fifteen_years "Line1" 2030 = Ok capacity
    ∧ Qeq (value (λ _ _, 2%Q) cost) (3 * value (λ _ _, 2%Q) capacity)%Q.
Proof.
  destruct (capacity_cost_of_builds (Costed fifteen_years (λ _, 3%Q)) "Line1" 2030)
    as (cost & capacity & Hcost & Hcap & _ & Huniform); [compute_done|].
  exists cost, capacity. split_and!; [done|done|].
  apply Huniform. intros v _. reflexivity.
Defined.

(** X5.  The lower and the upper tonne limit of a line are defined exactly
    on its operational periods and are opposite there; elsewhere both
    fail on the index of the capacity expression. *)
Theorem tonne_limits_are_opposite (m : model) (g : string) (p : Z) :
  ((g, p) ∉ new_build_transmission_operational_periods m →
   min_transmission_capacity_tonne_rule m g p = Raise (KeyError "MassNewLin_Capacity_Tonne")
   ∧ max_transmission_capacity_tonne_rule m g p
     = Raise (KeyError "MassNewLin_Capacity_Tonne"))
  ∧ ((g, p) ∈ new_build_transmission_operational_periods m →
     ∃ lower upper,
       min_transmission_capacity_tonne_rule m g p = Ok lower
       ∧ max_transmission_capacity_tonne_rule m g p = Ok upper
       ∧ ∀ ρ, (value ρ lower == - value ρ upper)%Q).
Proof.
  unfold min_transmission_capacity_tonne_rule, max_transmission_capacity_tonne_rule,
    MassNewLin_Capacity_Tonne. split.
  - intros Hout. by rewrite bool_decide_eq_false_2.
  - intros Hin. rewrite bool_decide_eq_true_2 by done.
    apply operational_pair_period in Hin.
    unfold mass_new_lin_capacity_rule, MASS_NEW_LIN_VNTS_OPR_IN_PRD.
    rewrite bool_decide_eq_true_2 by done. simpl.
    eexists _, _. split_and!; [reflexivity|reflexivity|]. intros ρ. simpl. ring.
Qed.

Lemma tonne_limits_are_opposite_witness :
  min_transmission_capacity_tonne_rule fifteen_years "Line1" 2050
  = Raise (KeyError "MassNewLin_Capacity_Tonne")
  ∧ ∃ lower upper,
      min_transmission_capacity_tonne_rule fifteen_years "Line1" 2040 = Ok lower
      ∧ max_transmission_capacity_tonne_rule fifteen_years "Line1" 2040 = Ok upper
      ∧ ∀ ρ, (value ρ lower == - value ρ upper)%Q.
Proof.
  split.
  - apply (proj1 (tonne_limits_are_opposite fifteen_years "Line1" 2050)). compute_done.
  - apply (proj2 (tonne_limits_are_opposite fifteen_years "Line1" 2040)). compute_done.
Defined.

End MassNewLinCostFacts.

(** ** Tracking rule, inputs and outputs of [stor_H2] *)

Section StorH2MoreFacts.
Import StorH2 StorH2Runs.

(** X6.  On a segment whose boundary is neither linear nor linked the
    rule treats the first timepoint like any other: whatever the
    first-timepoint test answers, it builds the relation between the state
    at the timepoint and the state, charge and discharge of [prev_tmp],
    weighted by the hours and the weight of that timepoint and by the two
    efficiencies; no linked parameter is read. *)
Theorem circular_boundary_links_to_prev_tmp
    (first first' : model → Z → string → bool)
    (check_boundary_type : model → Z → string → string → bool)
    (m : model) (s : string) (tmp : Z) :
  check_boundary_type m tmp (balancing_type_project m s) "linear" = false →
  check_boundary_type m tmp (balancing_type_project m s) "linked" = false →
  H2_tracking_rule first check_boundary_type m s tmp
  = H2_tracking_rule first' check_boundary_type m s tmp
  ∧ ∃ rhs,
      H2_tracking_rule first check_boundary_type m s tmp
      = Ok (Built (ConstraintEq (Var "Stor_Starting_H2_in_Storage_MWh" (s, tmp)) rhs))
      ∧ ∀ ρ,
          (value ρ rhs
           == ρ "Stor_Starting_H2_in_Storage_MWh"
                (s, prev_tmp m tmp (balancing_type_project m s))
              + ρ "Stor_H2_Charge_MW" (s, prev_tmp m tmp (balancing_type_project m s))
                * hrs_in_tmp m (prev_tmp m tmp (balancing_type_project m s))
                * tmp_weight m (prev_tmp m tmp (balancing_type_project m s))
                * stor_H2_charging_efficiency m s
              - ρ "Stor_H2_Discharge_MW" (s, prev_tmp m tmp (balancing_type_project m s))
                * hrs_in_tmp m (prev_tmp m tmp (balancing_type_project m s))
                * tmp_weight m (prev_tmp m tmp (balancing_type_project m s))
                / stor_H2_discharging_efficiency m s)%Q.
Proof.
  intros Hlinear Hlinked. unfold H2_tracking_rule.
  rewrite Hlinear, Hlinked, !andb_false_r. simpl.
  split; [done|]. eexists. split; [reflexivity|]. intros ρ. simpl. reflexivity.
Qed.

Lemma circular_boundary_links_to_prev_tmp_witness :
  H2_tracking_rule first_of_horizon circular_boundary (cavern None) "Cavern" 1
  = H2_tracking_rule (λ _ _ _, false) circular_boundary (cavern None) "Cavern" 1.
Proof.
  apply (circular_boundary_links_to_prev_tmp first_of_horizon (λ _ _ _, false)
           circular_boundary (cavern None) "Cavern" 1); reflexivity.
Defined.

(** X7.  When the linked-timepoint file is there, the load step asks the
    model for the set [STOR_LINKED_TMPS], which this module does not
    declare: without another module that declares it the step stops on the
    missing attribute, whatever the file holds; with it, the index read
    from the file is stored under that name and the module's own linked
    set is left as the operational-type loader left it. *)
Theorem present_linked_file_needs_foreign_set
    (load_optype_model_data :
       model → data_portal → string → Z → string → string → result data_portal)
    (fs : filesystem) (m : model) (dp dp' : data_portal)
    (scenario_directory : string) (subproblem : Z) (stage : string)
    (f : list (list cell)) :
  fs !! linked_inputs_filename scenario_directory subproblem stage = Some f →
  load_optype_model_data m dp scenario_directory subproblem stage "stor_H2" = Ok dp' →
  (other_sets m !! "STOR_LINKED_TMPS" = None →
   load_model_data load_optype_model_data fs m dp scenario_directory subproblem stage
   = Raise (AttributeError "STOR_LINKED_TMPS"))
  ∧ (∀ loaded,
       load_model_data load_optype_model_data fs m dp scenario_directory subproblem stage
       = Ok loaded →
       is_Some (other_sets m !! "STOR_LINKED_TMPS")
       ∧ (∃ rows, mapM parse_linked_row (tail f) = Ok rows
                  ∧ portal_sets loaded !! "STOR_LINKED_TMPS" = Some (rows.*1))
       ∧ portal_sets loaded !! "STOR_H2_LINKED_TMPS"
         = portal_sets dp' !! "STOR_H2_LINKED_TMPS").
Proof.
  intros Hfile Hload. unfold load_model_data. rewrite Hload. simpl. rewrite Hfile.
  unfold getattr_set. split.
  - intros Hnone. by rewrite Hnone.
  - intros loaded. destruct (other_sets m !! "STOR_LINKED_TMPS") as [l|]; [|done].
    simpl. destruct (mapM parse_linked_row (tail f)) as [rows|e]; [|done].
    simpl. intros [= <-]. split_and!; [done| |].
    + exists rows. split; [done|]. simpl. apply lookup_insert_eq.
    + simpl. by rewrite lookup_insert_ne.
Qed.

Lemma present_linked_file_needs_foreign_set_witness :
  load_model_data optype_data_only handed_over (cavern None) (DataPortal ∅ ∅)
    "scenario" 2 "1"
  = Raise (AttributeError "STOR_LINKED_TMPS")
  ∧ ∀ loaded,
      load_model_data optype_data_only handed_over (with_stor (cavern None))
        (DataPortal ∅ ∅) "scenario" 2 "1" = Ok loaded →
      portal_sets loaded !! "STOR_H2_LINKED_TMPS" = None.
Proof.
  split.
  - apply (proj1 (present_linked_file_needs_foreign_set optype_data_only handed_over
                    (cavern None) (DataPortal ∅ ∅) (DataPortal ∅ ∅) "scenario" 2 "1"
                    linked_table eq_refl eq_refl)).
    reflexivity.
  - intros loaded Hloaded.
    apply (proj2 (present_linked_file_needs_foreign_set optype_data_only handed_over
                    (with_stor (cavern None)) (DataPortal ∅ ∅) (DataPortal ∅ ∅)
                    "scenario" 2 "1" linked_table eq_refl eq_refl)) in Hloaded
      as (_ & _ & Hown).
    exact Hown.
Defined.

(** X8.  Whatever happens to the linked-timepoint part, the export leaves
    the dispatch file with its header and one row per operational
    timepoint of the storage projects; it writes at most one more file,
    the linked-timepoint file in the inputs of the next subproblem, and
    none when there is nothing to link. *)
Theorem export_writes_dispatch_and_one_more
    (check_for_tmps_to_link : string → Z → string → list Z * gmap Z Z)
    (fs : filesystem) (m : model) (solution : string → string * Z → Q)
    (scenario_directory : string) (subproblem : Z) (stage : string) :
  (export_results check_for_tmps_to_link fs m solution
     scenario_directory subproblem stage).1
    !! [scenario_directory; pretty subproblem; stage; "results"; "dispatch_stor_H2.csv"]
  = Some (dispatch_header :: (dispatch_row m solution <$> STOR_H2_OPR_TMPS m))
  ∧ (∀ path,
       path ≠ [scenario_directory; pretty subproblem; stage; "results";
               "dispatch_stor_H2.csv"] →
       path ≠ linked_outputs_filename scenario_directory subproblem stage →
       (export_results check_for_tmps_to_link fs m solution
          scenario_directory subproblem stage).1 !! path
       = fs !! path)
  ∧ ((check_for_tmps_to_link scenario_directory subproblem stage).1 = [] →
     export_results check_for_tmps_to_link fs m solution
       scenario_directory subproblem stage
     = (<[[scenario_directory; pretty subproblem; stage; "results"; "dispatch_stor_H2.csv"]
          := dispatch_header :: (dispatch_row m solution <$> STOR_H2_OPR_TMPS m)]> fs,
        Ok ())).
Proof.
  unfold export_results, linked_outputs_filename.
  destruct (check_for_tmps_to_link _ _ _) as [[|t tmps] dict]; simpl.
  - split_and!; [apply lookup_insert_eq| |done].
    intros path Hne _. by rewrite lookup_insert_ne.
  - destruct (getattr_set m "GEN_H2_OPR_TMPS") as [opr|e]; simpl.
    + destruct (write_linked_rows _ _ _ _ _ _) as [rows r]; simpl.
      split_and!; [|intros path Hne Hne'|done].
      * rewrite lookup_insert_ne by (intros [=]). apply lookup_insert_eq.
      * by rewrite !lookup_insert_ne.
    + split_and!; [|intros path Hne Hne'|done].
      * rewrite lookup_insert_ne by (intros [=]). apply lookup_insert_eq.
      * by rewrite !lookup_insert_ne.
Qed.

Lemma export_writes_dispatch_and_one_more_witness :
  exported_unlinked
  = (<[["scenario"; pretty 1; "1"; "results"; "dispatch_stor_H2.csv"]
       := dispatch_header
          :: (dispatch_row (with_gen_H2 (cavern None)) stored
                <$> STOR_H2_OPR_TMPS (with_gen_H2 (cavern None)))]> ∅,
     Ok ()).
Proof.
  apply (proj2 (proj2 (export_writes_dispatch_and_one_more nothing_to_link ∅
                         (with_gen_H2 (cavern None)) stored "scenario" 1 "1"))).
  reflexivity.
Defined.

End StorH2MoreFacts.

Section StorH2LinkedRows.
Import StorH2 StorH2Runs.

Lemma max0_nonneg (x : Q) : (0 <= max0 x)%Q.
Proof.
  unfold max0. destruct (Qle_bool 0 x) eqn:E; [by apply Qle_bool_iff|apply Qle_refl].
Qed.

Lemma tuple_le_total : Total tuple_le.
Proof.
  intros [a x] [b y]. unfold tuple_le. simpl.
  rewrite (String.compare_antisym b a).
  destruct (String.compare a b); simpl; [lia|by left|by right].
Qed.

Lemma linked_row_Ok (m : model) (solution : string → string * Z → Q)
    (dict : gmap Z Z) (i : string * Z) (row : list cell) :
  linked_row m solution dict i = Ok row →
  ∃ lt, dict !! i.2 = Some lt
    ∧ row = [CStr i.1; CInt lt; CNum (max0 (solution "Gen_H2_Charge_MW" i));
             CNum (max0 (solution "Gen_H2_MW" i))].
Proof.
  destruct i as [p tmp]. unfold linked_row, getattr_value. simpl.
  destruct (dict !! tmp) as [lt|]; simpl; [|done].
  repeat case_bool_decide; simpl; try done. intros [= <-]. eauto.
Qed.

Lemma write_linked_rows_spec (m : model) (solution : string → string * Z → Q)
    (link : list Z) (dict : gmap Z Z) (todo : list (string * Z))
    (written rows : list (list cell)) (r : result unit) :
  write_linked_rows m solution link dict todo written = (rows, r) →
  ∃ new, rows = written ++ new
    ∧ match r with
      | Ok _ => Forall2 (λ i row, linked_row m solution dict i = Ok row)
                  (filter (λ i, i.2 ∈ link) todo) new
      | Raise e => ∃ i, i ∈ todo ∧ i.2 ∈ link ∧ linked_row m solution dict i = Raise e
      end.
Proof.
  revert written. induction todo as [|i todo IH]; intros written; simpl.
  - intros [= <- <-]. exists []. by rewrite app_nil_r.
  - rewrite filter_cons. case_bool_decide as Hlink.
    + rewrite decide_True by done.
      destruct (linked_row m solution dict i) as [row|e] eqn:Hrow.
      * intros Hrec. destruct (IH _ Hrec) as (new & -> & Hnew).
        exists (row :: new). rewrite <- app_assoc. split; [done|].
        destruct r as [[]|e].
        -- by constructor.
        -- destruct Hnew as (j & Hj & Hjl & Hje). exists j. split_and!; [by right|done|done].
      * intros [= <- <-]. exists []. rewrite app_nil_r. split; [done|].
        exists i. split_and!; [by left|done|done].
    + rewrite decide_False by done. intros Hrec.
      destruct (IH _ Hrec) as (new & -> & Hnew). exists new. split; [done|].
      destruct r as [[]|e]; [done|].
      destruct Hnew as (j & Hj & Hjl & Hje). exists j. split_and!; [by right|done|done].
Qed.

(** X9.  When there are timepoints to link and the export returns, the
    linked-timepoint file holds, after its header, one row for each pair
    of [GEN_H2_OPR_TMPS] whose timepoint is to be linked, in the sorted
    order of the pairs: the project, the linked timepoint the dictionary
    gives for the timepoint, and the two values, none of them negative. *)
Theorem linked_export_rows
    (check_for_tmps_to_link : string → Z → string → list Z * gmap Z Z)
    (fs fs' : filesystem) (m : model) (solution : string → string * Z → Q)
    (scenario_directory : string) (subproblem : Z) (stage : string) :
  export_results check_for_tmps_to_link fs m solution scenario_directory subproblem stage
  = (fs', Ok ()) →
  (check_for_tmps_to_link scenario_directory subproblem stage).1 ≠ [] →
  ∃ opr rows,
    other_sets m !! "GEN_H2_OPR_TMPS" = Some opr
    ∧ fs' !! linked_outputs_filename scenario_directory subproblem stage
      = Some (linked_header :: rows)
    ∧ Sorted tuple_le (sorted opr)
    ∧ sorted opr ≡ₚ opr
    ∧ Forall2
        (λ i row,
           ∃ lt,
             (check_for_tmps_to_link scenario_directory subproblem stage).2 !! i.2 = Some lt
             ∧ row = [CStr i.1; CInt lt; CNum (max0 (solution "Gen_H2_Charge_MW" i));
                      CNum (max0 (solution "Gen_H2_MW" i))])
        (filter (λ i, i.2 ∈ (check_for_tmps_to_link scenario_directory subproblem stage).1)
                (sorted opr))
        rows
    ∧ Forall (λ row, ∀ q, CNum q ∈ row → (0 <= q)%Q) rows.
Proof.
  unfold export_results, getattr_set.
  destruct (check_for_tmps_to_link _ _ _) as [[|t tmps] dict]; simpl; [done|].
  intros Hexport _.
  destruct (other_sets m !! "GEN_H2_OPR_TMPS") as [opr|]; [|by simplify_eq].
  destruct (write_linked_rows _ _ _ _ _ _) as [rows r] eqn:Hrows.
  simplify_eq. apply write_linked_rows_spec in Hrows as (new & -> & Hnew). simpl in *.
  assert (Forall2
            (λ i row,
               ∃ lt, dict !! i.2 = Some lt
                 ∧ row = [CStr i.1; CInt lt; CNum (max0 (solution "Gen_H2_Charge_MW" i));
                          CNum (max0 (solution "Gen_H2_MW" i))])
            (filter (λ i, i.2 ∈ t :: tmps) (sorted opr)) new) as Hshape.
  { eapply Forall2_impl; [exact Hnew|]. intros i row. apply linked_row_Ok. }
  exists opr, new. split_and!; [done|apply lookup_insert_eq| | |done|].
  - apply Sorted_merge_sort, tuple_le_total.
  - apply merge_sort_Permutation.
  - apply Forall_forall. intros row Hrow.
    apply list_elem_of_lookup in Hrow as [k Hk].
    destruct (Forall2_lookup_r _ _ _ _ _ Hshape Hk) as (i & _ & lt & _ & ->).
    intros q Hq. repeat (apply elem_of_cons in Hq as [Hq|Hq]; [simplify_eq|]);
      try apply max0_nonneg. by apply elem_of_nil in Hq.
Qed.

(** The export of subproblem 1 links timepoint 2 of the electrolyzer. *)
Lemma linked_export_rows_witness :
  ∃ opr rows,
    other_sets (with_gen_H2 (cavern None)) !! "GEN_H2_OPR_TMPS" = Some opr
    ∧ exported.1 !! linked_outputs_filename "scenario" 1 "1" = Some (linked_header :: rows)
    ∧ length rows = 1%nat.
Proof.
  destruct (linked_export_rows link_last_timepoint ∅ exported.1
              (with_gen_H2 (cavern None)) stored "scenario" 1 "1")
    as (opr & rows & Hopr & Hfile & _ & _ & Hrows & _).
  - reflexivity.
  - discriminate.
  - exists opr, rows. split_and!; [done|done|].
    apply Forall2_length in Hrows. rewrite <- Hrows.
    assert (opr = [("Electrolyzer", 2); ("Electrolyzer", 1)]) as ->
      by (by vm_compute in Hopr; simplify_eq).
    reflexivity.
Defined.

(** X10.  When a pair of [GEN_H2_OPR_TMPS] is to be linked and the
    dictionary has no linked timepoint for its timepoint, the export does
    not return; the dispatch file and the header of the linked-timepoint
    file are on disk all the same. *)
Theorem linked_export_missing_index
    (check_for_tmps_to_link : string → Z → string → list Z * gmap Z Z)
    (fs : filesystem) (m : model) (solution : string → string * Z → Q)
    (scenario_directory : string) (subproblem : Z) (stage : string)
    (opr : list (string * Z)) (i : string * Z) :
  other_sets m !! "GEN_H2_OPR_TMPS" = Some opr →
  i ∈ opr →
  i.2 ∈ (check_for_tmps_to_link scenario_directory subproblem stage).1 →
  (check_for_tmps_to_link scenario_directory subproblem stage).2 !! i.2 = None →
  ∃ e rows,
    (export_results check_for_tmps_to_link fs m solution
       scenario_directory subproblem stage).2 = Raise e
    ∧ (export_results check_for_tmps_to_link fs m solution
         scenario_directory subproblem stage).1
        !! linked_outputs_filename scenario_directory subproblem stage
      = Some (linked_header :: rows).
Proof.
  intros Hopr Hin Hlink Hdict. unfold export_results, getattr_set.
  destruct (check_for_tmps_to_link _ _ _) as [[|t tmps] dict]; simpl in *.
  { by apply elem_of_nil in Hlink. }
  rewrite Hopr.
  destruct (write_linked_rows _ _ _ _ _ _) as [rows r] eqn:Hrows. simpl.
  apply write_linked_rows_spec in Hrows as (new & -> & Hnew). simpl in *.
  destruct r as [[]|e].
  - exfalso.
    assert (i ∈ filter (λ i, i.2 ∈ t :: tmps) (sorted opr)) as Hsel.
    { apply list_elem_of_filter. split; [done|].
      unfold sorted. by rewrite merge_sort_Permutation. }
    apply list_elem_of_lookup in Hsel as [k Hk].
    destruct (Forall2_lookup_l _ _ _ _ _ Hnew Hk) as (row & _ & Hrow).
    apply linked_row_Ok in Hrow as (lt & Hlt & _). congruence.
  - exists e, new. split; [done|]. apply lookup_insert_eq.
Qed.

Lemma linked_export_missing_index_witness :
  ∃ e rows,
    (export_results link_without_index ∅ (with_gen_H2 (cavern None)) stored
       "scenario" 1 "1").2 = Raise e
    ∧ (export_results link_without_index ∅ (with_gen_H2 (cavern None)) stored
         "scenario" 1 "1").1 !! linked_outputs_filename "scenario" 1 "1"
      = Some (linked_header :: rows).
Proof.
  apply (linked_export_missing_index link_without_index ∅ (with_gen_H2 (cavern None))
           stored "scenario" 1 "1" [("Electrolyzer", 2); ("Electrolyzer", 1)]
           ("Electrolyzer", 2)).
  - reflexivity.
  - compute_done.
  - compute_done.
  - reflexivity.
Defined.

End StorH2LinkedRows.

(** ** Balance constraint of [ccs_balance] *)

Section CcsBalanceMoreFacts.
Import CcsBalance CcsBalanceRuns.

Lemma total_app (ρ : string → string * Z → Q) (m : model) (z : string) (tmp : Z)
    (l l' : list string) :
  (total ρ m z tmp (l ++ l') == total ρ m z tmp l + total ρ m z tmp l')%Q.
Proof.
  unfold total. induction l as [|c l IH]; simpl; [ring|]. rewrite IH. ring.
Qed.

Lemma total_ext (ρ : string → string * Z → Q) (m m' : model) (z : string) (tmp : Z)
    (l : list string) :
  (∀ c, c ∈ l → expressions m' !! c = expressions m !! c) →
  total ρ m' z tmp l = total ρ m z tmp l.
Proof.
  intros Hext. unfold total. induction l as [|c l IH]; simpl; [done|].
  rewrite (Hext c) by left. rewrite IH; [done|]. intros c' Hc'. apply Hext. by right.
Qed.

Lemma total_singleton (ρ : string → string * Z → Q) (m : model) (z : string) (tmp : Z)
    (c : string) (e : string * Z → expr) :
  expressions m !! c = Some e → (total ρ m z tmp [c] == value ρ (e (z, tmp)))%Q.
Proof. intros He. unfold total. simpl. rewrite He. ring. Qed.

Lemma total_Permutation (ρ : string → string * Z → Q) (m : model) (z : string) (tmp : Z)
    (l l' : list string) :
  l ≡ₚ l' → (total ρ m z tmp l == total ρ m z tmp l')%Q.
Proof.
  unfold total. induction 1 as [|c l l' _ IH|c c' l|l l' l'' _ IH _ IH']; simpl.
  - reflexivity.
  - rewrite IH. reflexivity.
  - ring.
  - rewrite IH. exact IH'.
Qed.

(** A list of names resolves as a whole, or the resolution stops on a name
    of the list that the model does not have. *)
Lemma mapM_component_at_cases (m : model) (z : string) (tmp : Z) (components : list string) :
  (∀ c, c ∈ components → is_Some (expressions m !! c))
  ∨ ∃ pre c post,
      components = pre ++ c :: post
      ∧ (∀ c', c' ∈ pre → is_Some (expressions m !! c'))
      ∧ expressions m !! c = None.
Proof.
  induction components as [|c components IH].
  - left. intros c Hc. by apply elem_of_nil in Hc.
  - destruct (expressions m !! c) as [e|] eqn:He.
    + destruct IH as [Hall|(pre & c' & post & -> & Hpre & Hc')].
      * left. intros c' Hc'. apply elem_of_cons in Hc' as [->|Hc']; [by eexists|by apply Hall].
      * right. exists (c :: pre), c', post. split_and!; [done| |done].
        intros c'' Hc''. apply elem_of_cons in Hc'' as [->|Hc'']; [by eexists|by apply Hpre].
    + right. exists [], c, components. split_and!; [done| |done].
      intros c' Hc'. by apply elem_of_nil in Hc'.
Qed.

Lemma mapM_component_at_raise (m : model) (z : string) (tmp : Z)
    (pre : list string) (c : string) (post : list string) :
  (∀ c', c' ∈ pre → is_Some (expressions m !! c')) →
  expressions m !! c = None →
  mapM (component_at m z tmp) (pre ++ c :: post) = Raise (AttributeError c).
Proof.
  intros Hpre Hc. unfold component_at. induction pre as [|c' pre IH]; simpl.
  - by rewrite Hc.
  - destruct (Hpre c') as [e He]; [by left|]. rewrite He. simpl.
    rewrite IH; [done|]. intros c'' Hc''. apply Hpre. by right.
Qed.

(** X11.  With the registries as the module leaves them, the constraint
    of a zone and timepoint reads: the registered production plus the
    allowed unserved CCS equals the registered consumption plus the allowed
    over-CCS.  In a zone where neither violation is allowed the two
    penalty variables drop out of the balance. *)
Theorem penalties_enter_the_balance (m : model) (d : DynamicComponents)
    (z : string) (tmp : Z) :
  (∀ c, c ∈ ccs_balance_production_components d ++ ccs_balance_consumption_components d →
        is_Some (expressions m !! c)
        ∧ c ≠ "Unserved_CCS_Expression" ∧ c ≠ "Over_CCS_Expression") →
  ∃ lhs rhs,
    meet_ccs_rule (add_model_components m d).2 (add_model_components m d).1 z tmp
    = Ok (Built (ConstraintEq lhs rhs))
    ∧ (∀ ρ,
         (value ρ lhs
          == total ρ m z tmp (ccs_balance_production_components d)
             + allow_unserved_ccs m z * ρ "Unserved_CCS" (z, tmp))%Q
         ∧ (value ρ rhs
            == total ρ m z tmp (ccs_balance_consumption_components d)
               + allow_over_ccs m z * ρ "Over_CCS" (z, tmp))%Q)
    ∧ ((allow_unserved_ccs m z == 0)%Q → (allow_over_ccs m z == 0)%Q →
       ∀ ρ,
         (value ρ lhs == total ρ m z tmp (ccs_balance_production_components d))%Q
         ∧ (value ρ rhs == total ρ m z tmp (ccs_balance_consumption_components d))%Q).
Proof.
  intros Hd.
  set (m' := (add_model_components m d).1).
  assert (expressions m' !! "Unserved_CCS_Expression"
          = Some (λ i, unserved_ccs_expression_rule m i.1 i.2)) as Hun
    by apply lookup_insert_eq.
  assert (expressions m' !! "Over_CCS_Expression"
          = Some (λ i, over_ccs_expression_rule m i.1 i.2)) as Hov.
  { unfold m'. simpl. rewrite lookup_insert_ne by done. apply lookup_insert_eq. }
  assert (∀ c, c ∈ ccs_balance_production_components d
                   ++ ccs_balance_consumption_components d →
               expressions m' !! c = expressions m !! c) as Hsame.
  { intros c Hc. destruct (Hd c Hc) as (_ & Hne & Hne').
    unfold m'. simpl. by rewrite !lookup_insert_ne. }
  destruct (mapM_component_at m' z tmp
              (ccs_balance_production_components d ++ ["Unserved_CCS_Expression"]))
    as (production & Hp & Hpsum).
  { intros c Hc. apply elem_of_app in Hc as [Hc|Hc].
    - rewrite Hsame by (apply elem_of_app; by left). apply Hd, elem_of_app. by left.
    - apply list_elem_of_singleton in Hc as ->. by eexists. }
  destruct (mapM_component_at m' z tmp
              (ccs_balance_consumption_components d ++ ["Over_CCS_Expression"]))
    as (consumption & Hc & Hcsum).
  { intros c Hin. apply elem_of_app in Hin as [Hin|Hin].
    - rewrite Hsame by (apply elem_of_app; by right). apply Hd, elem_of_app. by right.
    - apply list_elem_of_singleton in Hin as ->. by eexists. }
  assert (∀ ρ,
            (value ρ (py_sum production)
             == total ρ m z tmp (ccs_balance_production_components d)
                + allow_unserved_ccs m z * ρ "Unserved_CCS" (z, tmp))%Q
            ∧ (value ρ (py_sum consumption)
               == total ρ m z tmp (ccs_balance_consumption_components d)
                  + allow_over_ccs m z * ρ "Over_CCS" (z, tmp))%Q) as Hvalues.
  { intros ρ. rewrite !value_py_sum, Hpsum, Hcsum, !total_app.
    rewrite (total_ext ρ m m') by (intros c Hin; apply Hsame, elem_of_app; by left).
    rewrite (total_ext ρ m m' z tmp (ccs_balance_consumption_components d))
      by (intros c Hin; apply Hsame, elem_of_app; by right).
    rewrite (total_singleton ρ m' z tmp _ _ Hun), (total_singleton ρ m' z tmp _ _ Hov).
    simpl. split; ring. }
  exists (py_sum production), (py_sum consumption). split_and!.
  - unfold meet_ccs_rule. fold m'. simpl. rewrite Hp. simpl. rewrite Hc. done.
  - exact Hvalues.
  - intros Hun0 Hov0 ρ. destruct (Hvalues ρ) as [-> ->]. rewrite Hun0, Hov0. split; ring.
Qed.

Lemma penalties_enter_the_balance_witness :
  ∃ lhs rhs,
    meet_ccs_rule (add_model_components capture_and_storage both_registered).2
      (add_model_components capture_and_storage both_registered).1 "Zone1" 1
    = Ok (Built (ConstraintEq lhs rhs))
    ∧ ∀ ρ, (value ρ lhs == total ρ capture_and_storage "Zone1" 1 ["CCS_Capture_in_Zone"])%Q
           ∧ (value ρ rhs
              == total ρ capture_and_storage "Zone1" 1 ["CCS_Storage_in_Zone"])%Q.
Proof.
  destruct (penalties_enter_the_balance capture_and_storage both_registered "Zone1" 1)
    as (lhs & rhs & Hrule & _ & Hdrop).
  - intros c Hc. simpl in Hc.
    apply elem_of_cons in Hc as [->|Hc]; [split_and!; [by eexists|done|done]|].
    apply list_elem_of_singleton in Hc as ->. split_and!; [by eexists|done|done].
  - exists lhs, rhs. split; [exact Hrule|]. apply Hdrop; reflexivity.
Defined.

(** X12.  A registered name that no module has attached to the model
    stops the rule with an attribute error that names it: the first such
    name of the production registry, or, when the production registry
    resolves, the first such name of the consumption registry. *)
Theorem unresolved_name_raises (d : DynamicComponents) (m : model) (z : string) (tmp : Z)
    (pre : list string) (c : string) (post : list string) :
  (∀ c', c' ∈ pre → is_Some (expressions m !! c')) →
  expressions m !! c = None →
  (ccs_balance_production_components d = pre ++ c :: post →
   meet_ccs_rule d m z tmp = Raise (AttributeError c))
  ∧ ((∀ c', c' ∈ ccs_balance_production_components d → is_Some (expressions m !! c')) →
     ccs_balance_consumption_components d = pre ++ c :: post →
     meet_ccs_rule d m z tmp = Raise (AttributeError c)).
Proof.
  intros Hpre Hc. unfold meet_ccs_rule. split.
  - intros ->. by rewrite mapM_component_at_raise.
  - intros Hprod ->.
    destruct (mapM_component_at m z tmp _ Hprod) as (terms & -> & _). simpl.
    by rewrite mapM_component_at_raise.
Qed.

Lemma unresolved_name_raises_witness :
  meet_ccs_rule dangling capture_and_storage "Zone1" 1
  = Raise (AttributeError "CCS_Transport_in_Zone").
Proof.
  apply (proj1 (unresolved_name_raises dangling capture_and_storage "Zone1" 1
                  ["CCS_Capture_in_Zone"] "CCS_Transport_in_Zone" []
                  ltac:(intros c' Hc'; apply list_elem_of_singleton in Hc' as ->;
                        by eexists)
                  eq_refl)).
  reflexivity.
Defined.

(** X13.  The order in which modules have registered does not change the
    balance: over registries with the same names in another order the
    rule fails when it failed, and otherwise returns a relation whose two
    sides have the same values. *)
Theorem registration_order_is_immaterial (d d' : DynamicComponents) (m : model)
    (z : string) (tmp : Z) :
  ccs_balance_production_components d ≡ₚ ccs_balance_production_components d' →
  ccs_balance_consumption_components d ≡ₚ ccs_balance_consumption_components d' →
  (∀ e, meet_ccs_rule d m z tmp = Raise e → ∃ e', meet_ccs_rule d' m z tmp = Raise e')
  ∧ (∀ lhs rhs,
       meet_ccs_rule d m z tmp = Ok (Built (ConstraintEq lhs rhs)) →
       ∃ lhs' rhs',
         meet_ccs_rule d' m z tmp = Ok (Built (ConstraintEq lhs' rhs'))
         ∧ ∀ ρ, (value ρ lhs == value ρ lhs')%Q ∧ (value ρ rhs == value ρ rhs')%Q).
Proof.
  intros Hprod Hcons. unfold meet_ccs_rule.
  destruct (mapM_component_at_cases m z tmp (ccs_balance_production_components d))
    as [Hp|(pre & c & post & Hp & Hpre & Hc)].
  - assert (∀ c, c ∈ ccs_balance_production_components d' → is_Some (expressions m !! c))
      as Hp' by (intros c Hc; apply Hp; by rewrite Hprod).
    destruct (mapM_component_at m z tmp _ Hp) as (production & -> & Hsum).
    destruct (mapM_component_at m z tmp _ Hp') as (production' & -> & Hsum'). simpl.
    destruct (mapM_component_at_cases m z tmp (ccs_balance_consumption_components d))
      as [Hc|(pre & c & post & Hc & Hpre & Hnone)].
    + assert (∀ c, c ∈ ccs_balance_consumption_components d' →
                   is_Some (expressions m !! c))
        as Hc' by (intros c Hin; apply Hc; by rewrite Hcons).
      destruct (mapM_component_at m z tmp _ Hc) as (consumption & -> & Hcsum).
      destruct (mapM_component_at m z tmp _ Hc') as (consumption' & -> & Hcsum').
      simpl. split; [done|]. intros lhs rhs [= <- <-]. eexists _, _. split; [done|].
      intros ρ. rewrite !value_py_sum, Hsum, Hsum', Hcsum, Hcsum'.
      split; by apply total_Permutation.
    + rewrite Hc, mapM_component_at_raise by done. simpl. split; [|done].
      intros e _.
      destruct (mapM_component_at_cases m z tmp (ccs_balance_consumption_components d'))
        as [Hc'|(pre' & c' & post' & -> & Hpre' & Hnone')].
      * destruct (Hc' c) as [x Hx]; [|congruence].
        rewrite <- Hcons, Hc. apply elem_of_app. right. by left.
      * rewrite mapM_component_at_raise by done. eauto.
  - rewrite Hp, mapM_component_at_raise by done. simpl. split; [|done].
    intros e _.
    destruct (mapM_component_at_cases m z tmp (ccs_balance_production_components d'))
      as [Hp'|(pre' & c' & post' & -> & Hpre' & Hnone')].
    + destruct (Hp' c) as [x Hx]; [|congruence].
      rewrite <- Hprod, Hp. apply elem_of_app. right. by left.
    + rewrite mapM_component_at_raise by done. simpl. eauto.
Qed.

Lemma registration_order_is_immaterial_witness :
  ∃ e', meet_ccs_rule
          (Dynamic ["CCS_Transport_in_Zone"; "CCS_Capture_in_Zone"] ["CCS_Storage_in_Zone"])
          capture_and_storage "Zone1" 1 = Raise e'.
Proof.
  apply (proj1 (registration_order_is_immaterial dangling
                  (Dynamic ["CCS_Transport_in_Zone"; "CCS_Capture_in_Zone"]
                           ["CCS_Storage_in_Zone"])
                  capture_and_storage "Zone1" 1
                  ltac:(apply Permutation_swap) ltac:(reflexivity))
               (AttributeError "CCS_Transport_in_Zone")).
  reflexivity.
Defined.

End CcsBalanceMoreFacts.

(** ** Capacity, cost and inputs of [dr_new] *)

Section DrNewMoreFacts.
Import DrNew DrNewRules.

(** X14.  The power capacity of a period reads the build of that period
    alone: a build made in an earlier period raises the energy capacity of
    the period by its full amount and leaves its power capacity as it
    was. *)
Theorem power_capacity_reads_one_build (m : model) (g : string) (p : Z) :
  (∀ ρ v δ, v ≠ p →
     (value (raise_build ρ g v δ) (dr_new_power_capacity_rule m g p)
      == value ρ (dr_new_power_capacity_rule m g p))%Q)
  ∧ (∀ ρ v δ, NoDup (PERIODS m) → v ∈ PERIODS m → v < p →
       (value (raise_build ρ g v δ) (dr_new_energy_capacity_rule m g p)
        == value ρ (dr_new_energy_capacity_rule m g p) + δ)%Q
       ∧ (value (raise_build ρ g v δ) (dr_new_power_capacity_rule m g p)
          == value ρ (dr_new_power_capacity_rule m g p))%Q).
Proof.
  assert (∀ ρ v δ, v ≠ p →
            (value (raise_build ρ g v δ) (dr_new_power_capacity_rule m g p)
             == value ρ (dr_new_power_capacity_rule m g p))%Q) as Hpower.
  { intros ρ v δ Hne. simpl. unfold raise_build.
    rewrite (bool_decide_eq_false_2 (_ ∧ _)) by (intros [_ [=]]; done). reflexivity. }
  split; [exact Hpower|]. intros ρ v δ Hnd Hin Hlt. split; [|apply Hpower; lia].
  unfold dr_new_energy_capacity_rule.
  rewrite !value_sum_builds, builds_up_to_raise by (done || lia).
  by rewrite bool_decide_eq_true_2.
Qed.

Lemma power_capacity_reads_one_build_witness :
  Qeq (value (raise_build (λ _ _, 1%Q) "Shift1" 2020 5%Q)
         (dr_new_energy_capacity_rule three_periods "Shift1" 2030))
      (value (λ _ _, 1%Q) (dr_new_energy_capacity_rule three_periods "Shift1" 2030) + 5)%Q
  ∧ Qeq (value (raise_build (λ _ _, 1%Q) "Shift1" 2020 5%Q)
           (dr_new_power_capacity_rule three_periods "Shift1" 2030))
        (value (λ _ _, 1%Q) (dr_new_power_capacity_rule three_periods "Shift1" 2030)).
Proof.
  apply (proj2 (power_capacity_reads_one_build three_periods "Shift1" 2030)
           (λ _ _, 1%Q) 2020 5%Q); [compute_done|compute_done|lia].
Defined.

(** X15.  With a nonnegative slope and nonnegative builds, a cost that
    meets the constraint of a supply-curve point in a period is at least
    the value of that segment at the capacity built up to any earlier
    period. *)
Theorem cost_covers_earlier_capacity (m : priced) (project : string) (point p1 p2 : Z)
    (ρ : string → string * Z → Q) :
  (0 <= dr_new_supply_curve_slope m (project, point))%Q →
  (∀ i, (0 <= ρ "DRNew_Build_MWh" i)%Q) →
  p1 ≤ p2 →
  holds ρ (cost_rule m project point p2) →
  (dr_new_supply_curve_slope m (project, point) * cumulative_build ρ (base m) project p1
   + dr_new_supply_curve_intercept m (project, point)
   <= ρ "DRNew_Cost" (project, p2))%Q.
Proof.
  intros Hslope Hbuilds Hle Hholds. unfold holds, cost_rule in Hholds. simpl in Hholds.
  unfold dr_new_energy_capacity_rule in Hholds. rewrite value_sum_builds in Hholds.
  eapply Qle_trans; [|exact Hholds].
  apply Qplus_le_l. rewrite !(Qmult_comm (dr_new_supply_curve_slope m (project, point))).
  apply Qmult_le_compat_r; [|exact Hslope].
  unfold cumulative_build. by apply builds_up_to_monotone.
Qed.

Lemma cost_covers_earlier_capacity_witness :
  (3 * cumulative_build (λ c _, if String.eqb c "DRNew_Cost" then 20 else 2)%Q
         three_periods "Shift1" 2020 + 1
   <= 20)%Q.
Proof.
  apply (cost_covers_earlier_capacity (Priced three_periods (λ _, 3%Q) (λ _, 1%Q))
           "Shift1" 1 2020 2040 (λ c _, if String.eqb c "DRNew_Cost" then 20 else 2)%Q).
  - discriminate.
  - intros i. discriminate.
  - lia.
  - discriminate.
Defined.

End DrNewMoreFacts.

Section DrNewInputFacts.
Import DrNew DrNewRules.

Lemma determine_projects_from_Ok (rows : list (string * string * option Q))
    (projects : list string) (max_fraction : gmap string Q) :
  Forall (λ r, r.1.2 = "dr_new" → is_Some r.2) rows →
  ∃ max_fraction',
    determine_projects_from rows projects max_fraction
    = Ok (projects ++ ((λ r, r.1.1) <$> filter (λ r, r.1.2 = "dr_new") rows),
          max_fraction')
    ∧ dom max_fraction'
      = dom max_fraction
        ∪ list_to_set ((λ r, r.1.1) <$> filter (λ r, r.1.2 = "dr_new") rows)
    ∧ ∀ g hours, max_fraction' !! g = Some hours →
        max_fraction !! g = Some hours ∨ (g, "dr_new", Some hours) ∈ rows.
Proof.
  revert projects max_fraction.
  induction rows as [|[[project capacity_type] duration] rows IH];
    intros projects max_fraction Hall; simpl.
  - exists max_fraction. rewrite app_nil_r. split_and!; [done|set_solver|by left].
  - apply Forall_cons in Hall as [Hrow Hall]. simpl in Hrow. rewrite filter_cons. simpl.
    destruct (String.eqb capacity_type "dr_new") eqn:Hty.
    + apply String.eqb_eq in Hty as ->. rewrite decide_True by done.
      destruct (Hrow eq_refl) as [hours ->].
      destruct (IH (projects ++ [project]) (<[project := hours]> max_fraction) Hall)
        as (mf & -> & Hdom & Hval).
      exists mf. rewrite <- app_assoc. split_and!; [done| |].
      * rewrite Hdom, dom_insert_L. simpl. set_solver.
      * intros g h Hg. destruct (Hval g h Hg) as [Hins|Hin]; [|right; by right].
        destruct (decide (project = g)) as [->|Hne].
        -- rewrite lookup_insert_eq in Hins. simplify_eq. right. by left.
        -- rewrite lookup_insert_ne in Hins by done. by left.
    + apply String.eqb_neq in Hty. rewrite decide_False by done.
      destruct (IH projects max_fraction Hall) as (mf & -> & Hdom & Hval).
      exists mf. split_and!; [done|done|].
      intros g h Hg. destruct (Hval g h Hg); [by left|right; by right].
Qed.

Lemma determine_projects_from_Raise (rows : list (string * string * option Q))
    (projects : list string) (max_fraction : gmap string Q) (g : string) :
  (g, "dr_new", None) ∈ rows →
  determine_projects_from rows projects max_fraction
  = Raise (ValueError "could not convert string to float").
Proof.
  revert projects max_fraction.
  induction rows as [|[[project capacity_type] duration] rows IH];
    intros projects max_fraction Hin; simpl.
  - by apply elem_of_nil in Hin.
  - apply elem_of_cons in Hin as [Heq|Hin].
    + by simplify_eq.
    + destruct (String.eqb capacity_type "dr_new"); [|by apply IH].
      destruct duration; [by apply IH|done].
Qed.

(** X16.  From the rows of the projects file the module keeps, in file
    order, the projects whose capacity type is [dr_new], and a minimum
    duration for exactly those projects, each taken from a row of the
    project; a [dr_new] row whose duration is not a number stops the load
    with a value error. *)
Theorem determine_projects_keeps_dr_new (rows : list (string * string * option Q)) :
  (Forall (λ r, r.1.2 = "dr_new" → is_Some r.2) rows →
   ∃ max_fraction,
     determine_projects rows
     = Ok ((λ r, r.1.1) <$> filter (λ r, r.1.2 = "dr_new") rows, max_fraction)
     ∧ (∀ g, is_Some (max_fraction !! g)
             ↔ g ∈ (λ r, r.1.1) <$> filter (λ r, r.1.2 = "dr_new") rows)
     ∧ ∀ g hours, max_fraction !! g = Some hours → (g, "dr_new", Some hours) ∈ rows)
  ∧ (∀ g, (g, "dr_new", None) ∈ rows →
          determine_projects rows = Raise (ValueError "could not convert string to float")).
Proof.
  unfold determine_projects. split.
  - intros Hall.
    destruct (determine_projects_from_Ok rows [] ∅ Hall) as (mf & Hmf & Hdom & Hval).
    exists mf. split_and!; [done| |].
    + intros g. rewrite <- elem_of_dom, Hdom, dom_empty_L. set_solver.
    + intros g hours Hg. destruct (Hval g hours Hg) as [Hempty|Hin]; [|done].
      by rewrite lookup_empty in Hempty.
  - intros g. apply determine_projects_from_Raise.
Qed.

Lemma determine_projects_keeps_dr_new_witness :
  (∃ max_fraction, determine_projects projects_tab
                   = Ok (["Shift_DR"; "Shift_EV"], max_fraction))
  ∧ determine_projects (("Shift_X", "dr_new", None) :: projects_tab)
    = Raise (ValueError "could not convert string to float").
Proof.
  split.
  - destruct (proj1 (determine_projects_keeps_dr_new projects_tab))
      as (mf & Hmf & _).
    + repeat constructor; simpl; intros; try discriminate; by eexists.
    + exists mf. exact Hmf.
  - apply (proj2 (determine_projects_keeps_dr_new
                    (("Shift_X", "dr_new", None) :: projects_tab)) "Shift_X").
    by left.
Defined.

Lemma write_supply_curve_None (supply_curve_count : list (string * Z))
    (supply_curve written rows : list (list StorH2.cell)) :
  write_supply_curve supply_curve_count supply_curve written = (rows, None) →
  rows = written ++ (if supply_curve_count is [] then [] else supply_curve).
Proof.
  revert supply_curve written.
  induction supply_curve_count as [|[project count] rest IH]; intros sc written; simpl.
  - intros [= <-]. by rewrite app_nil_r.
  - destruct (1 <? count); [done|]. intros Hrec. apply IH in Hrec as ->.
    rewrite <- app_assoc. f_equal. destruct rest; by rewrite app_nil_r.
Qed.

Lemma write_supply_curve_Some (pre : list (string * Z)) (project : string) (count : Z)
    (post : list (string * Z)) (supply_curve written : list (list StorH2.cell)) :
  Forall (λ pc, pc.2 ≤ 1) pre → 1 < count →
  (write_supply_curve (pre ++ (project, count) :: post) supply_curve written).2
  = Some (SeveralSupplyCurves project).
Proof.
  intros Hpre Hcount. revert supply_curve written.
  induction Hpre as [|[p c] pre Hc Hpre IH]; intros sc written; simpl.
  - by rewrite (proj2 (Z.ltb_lt 1 count)).
  - simpl in Hc. rewrite (proj2 (Z.ltb_ge 1 c)) by done. apply IH.
Qed.

(** X17.  Without a potential scenario nothing is written.  When the call
    returns, the potential file holds the header and every row of the
    query with its nulls replaced by a dot, and the supply-curve file holds
    the header and the rows of the supply curve once, however many
    projects the count query lists, or no row when it lists none.  A
    project with more than one supply curve stops the call with an error
    that names the first such project, the potential file being written
    already. *)
Theorem supply_curve_is_written_once
    (fs : gmap (list string) (list (list StorH2.cell))) (inputs_directory : string)
    (potential : option Z) (db : query_results) :
  (potential = None →
   write_module_specific_model_inputs fs inputs_directory potential db
   = (fs, Some PotentialMissing))
  ∧ (∀ fs',
       write_module_specific_model_inputs fs inputs_directory potential db = (fs', None) →
       fs' !! potential_file inputs_directory
       = Some ((StorH2.CStr <$> ["project"; "period"; "min_cumulative_new_build_mwh";
                                 "max_cumulative_new_build_mwh"])
               :: (replace_nulls <$> min_max_builds db))
       ∧ fs' !! supply_curve_file inputs_directory
         = Some ((StorH2.CStr <$> ["project"; "point"; "slope"; "intercept"])
                 :: (if supply_curve_count db is [] then [] else supply_curve db)))
  ∧ (∀ pre project count post,
       is_Some potential → is_Some (supply_curve_id db) →
       supply_curve_count db = pre ++ (project, count) :: post →
       Forall (λ pc, pc.2 ≤ 1) pre → 1 < count →
       (write_module_specific_model_inputs fs inputs_directory potential db).2
       = Some (SeveralSupplyCurves project)
       ∧ is_Some ((write_module_specific_model_inputs fs inputs_directory potential db).1
                    !! potential_file inputs_directory)).
Proof.
  unfold write_module_specific_model_inputs, get_module_specific_inputs_from_database.
  split_and!.
  - by intros ->.
  - intros fs'. destruct potential; [|done]. destruct (supply_curve_id db); [|done].
    destruct (write_supply_curve _ _ _) as [rows e] eqn:Hrows. intros [= <- ->].
    apply write_supply_curve_None in Hrows as ->. simpl. split.
    + rewrite lookup_insert_ne by (intros [=]). apply lookup_insert_eq.
    + apply lookup_insert_eq.
  - intros pre project count post [? ->] [? ->] Hcount Hpre Hgt.
    pose proof (write_supply_curve_Some pre project count post (supply_curve db) []
                  Hpre Hgt) as Herr.
    rewrite <- Hcount in Herr.
    destruct (write_supply_curve _ _ _) as [rows e]. simpl in *. split; [done|].
    rewrite lookup_insert_ne by (intros [=]). rewrite lookup_insert_eq. by eexists.
Qed.

Lemma supply_curve_is_written_once_witness :
  (write_module_specific_model_inputs ∅ "inputs" (Some 1) two_projects).1
    !! supply_curve_file "inputs"
  = Some ((StorH2.CStr <$> ["project"; "point"; "slope"; "intercept"])
          :: supply_curve two_projects).
Proof.
  apply (proj1 (proj2 (supply_curve_is_written_once ∅ "inputs" (Some 1) two_projects))
           (write_module_specific_model_inputs ∅ "inputs" (Some 1) two_projects).1).
  reflexivity.
Defined.

End DrNewInputFacts.

(** ** Optional limits of the vintage cost tables *)

Section VintageCostsFacts.
Import StorH2 VintageCosts.

Lemma limits_from_spec (rows : list (string * Z * option Q))
    (project_vintages : list (string * Z)) (cumulative : gmap (string * Z) Q) :
  (limits_from rows project_vintages cumulative).1
  = project_vintages ++ ((λ r, r.1) <$> filter (λ r, is_Some r.2) rows)
  ∧ dom (limits_from rows project_vintages cumulative).2
    = dom cumulative ∪ list_to_set ((λ r, r.1) <$> filter (λ r, is_Some r.2) rows)
  ∧ ∀ gv limit,
      (limits_from rows project_vintages cumulative).2 !! gv = Some limit →
      cumulative !! gv = Some limit ∨ (gv, Some limit) ∈ rows.
Proof.
  revert project_vintages cumulative.
  induction rows as [|[[g v] [q|]] rows IH]; intros pv cum; cbn [limits_from].
  - rewrite filter_nil, fmap_nil, app_nil_r. split_and!; [done|set_solver|by left].
  - rewrite filter_cons, decide_True by (by eexists). rewrite fmap_cons. cbn [fst].
    destruct (IH (pv ++ [(g, v)]) (<[(g, v) := q]> cum)) as (-> & -> & Hval).
    rewrite <- app_assoc. split_and!; [done| |].
    + rewrite dom_insert_L. set_solver.
    + intros gv limit Hl. destruct (Hval gv limit Hl) as [Hins|Hin]; [|right; by right].
      destruct (decide ((g, v) = gv)) as [<-|Hne].
      * rewrite lookup_insert_eq in Hins. simplify_eq. right. by left.
      * rewrite lookup_insert_ne in Hins by done. by left.
  - rewrite filter_cons, decide_False by (by intros []).
    destruct (IH pv cum) as (-> & -> & Hval). split_and!; [done|done|].
    intros gv limit Hl. destruct (Hval gv limit Hl); [by left|right; by right].
Qed.

Lemma limited_keys {A} (key : A → string * Z) (cell : A → option Q) (l : list A) :
  (λ r : string * Z * option Q, r.1)
    <$> filter (λ r, is_Some r.2) ((λ r, (key r, cell r)) <$> l)
  = key <$> filter (λ r, is_Some (cell r)) l.
Proof.
  induction l as [|r l IH]; [done|].
  rewrite fmap_cons, !filter_cons. cbn [snd].
  destruct (decide (is_Some (cell r))); [rewrite !fmap_cons|]; by rewrite IH.
Qed.

(** What [set_limits] leaves in the portal. *)
Lemma set_limits_spec (dp : data_portal) (set_name param_name : string)
    (in_header : bool) (rows : list (string * Z * option Q)) :
  ∃ limited values,
    limited = (if in_header then (λ r, r.1) <$> filter (λ r, is_Some r.2) rows else [])
    ∧ portal_params (set_limits dp set_name param_name in_header rows) !! param_name
      = Some values
    ∧ dom values = list_to_set limited
    ∧ (∀ gv limit, values !! gv = Some limit → (gv, Some limit) ∈ rows)
    ∧ portal_sets (set_limits dp set_name param_name in_header rows) !! set_name
      = (if limited is [] then portal_sets dp !! set_name else Some limited)
    ∧ (∀ name, name ≠ set_name →
         portal_sets (set_limits dp set_name param_name in_header rows) !! name
         = portal_sets dp !! name)
    ∧ (∀ name, name ≠ param_name →
         portal_params (set_limits dp set_name param_name in_header rows) !! name
         = portal_params dp !! name).
Proof.
  unfold set_limits. destruct in_header.
  - destruct (limits_from_spec rows [] ∅) as (Hl & Hdom & Hval).
    simpl in Hl. rewrite Hl. eexists _, _. split_and!; [reflexivity| | | | | |].
    + simpl. apply lookup_insert_eq.
    + rewrite Hdom, dom_empty_L. set_solver.
    + intros gv limit Hgv. destruct (Hval gv limit Hgv) as [Hempty|Hin]; [|done].
      by rewrite lookup_empty in Hempty.
    + simpl. destruct (_ <$> filter _ rows); [done|apply lookup_insert_eq].
    + intros name Hne. simpl.
      destruct (_ <$> filter _ rows); [done|by rewrite lookup_insert_ne].
    + intros name Hne. simpl. by rewrite lookup_insert_ne.
  - eexists _, _. split_and!; [reflexivity| | | | | |]; simpl.
    + apply lookup_insert_eq.
    + by rewrite dom_empty_L.
    + intros gv limit Hgv. by rewrite lookup_empty in Hgv.
    + done.
    + done.
    + intros name Hne. by rewrite lookup_insert_ne.
Qed.

(** X18.  After [gen_ccs_new] has loaded its cost table, the parameter of
    the minimum cumulative build is defined on exactly the vintages whose
    row has a value in that column (none when the header lacks the
    column), each value coming from such a row, and those vintages are
    vintages of the table.  The set of vintages with a minimum is
    initialised to that list only when it is not empty; otherwise it is
    left as it was, while the parameter is still replaced by the empty
    one. *)
Theorem gen_ccs_new_minimum_limits (dp : data_portal) (t : gen_table) :
  ∃ limited values,
    limited
    = (if gen_has_min t
       then gen_key <$> filter (λ r, is_Some (min_cumulative_new_build_mw r)) (gen_rows t)
       else [])
    ∧ portal_params (gen_ccs_new_load_model_data dp t)
        !! "gen_ccs_new_min_cumulative_new_build_mw" = Some values
    ∧ (∀ gv, is_Some (values !! gv) ↔ gv ∈ limited)
    ∧ (∀ gv limit, values !! gv = Some limit →
         ∃ r, r ∈ gen_rows t ∧ gen_key r = gv
              ∧ min_cumulative_new_build_mw r = Some limit)
    ∧ portal_sets (gen_ccs_new_load_model_data dp t) !! "GEN_CCS_NEW_VNTS_W_MIN_CONSTRAINT"
      = (if limited is []
         then portal_sets dp !! "GEN_CCS_NEW_VNTS_W_MIN_CONSTRAINT"
         else Some limited)
    ∧ ∃ vintages,
        portal_sets (gen_ccs_new_load_model_data dp t) !! "GEN_CCS_NEW_VNTS" = Some vintages
        ∧ limited ⊆ vintages.
Proof.
  unfold gen_ccs_new_load_model_data.
  set (dp1 := DataPortal _ _).
  set (min_rows := (λ r, (gen_project r, gen_vintage r, min_cumulative_new_build_mw r))
                     <$> gen_rows t).
  set (max_rows := (λ r, (gen_project r, gen_vintage r, max_cumulative_new_build_mw r))
                     <$> gen_rows t).
  destruct (set_limits_spec dp1 "GEN_CCS_NEW_VNTS_W_MIN_CONSTRAINT"
              "gen_ccs_new_min_cumulative_new_build_mw" (gen_has_min t) min_rows)
    as (limited & values & Hlimited & Hparam & Hdom & Hval & Hset & Hsets1 & _).
  set (dp2 := set_limits dp1 _ _ _ min_rows) in *.
  destruct (set_limits_spec dp2 "GEN_CCS_NEW_VNTS_W_MAX_CONSTRAINT"
              "gen_ccs_new_max_cumulative_new_build_mw" (gen_has_max t) max_rows)
    as (limited' & values' & _ & _ & _ & _ & _ & Hsets & Hparams).
  assert ((λ r : string * Z * option Q, r.1) <$> filter (λ r, is_Some r.2) min_rows
          = gen_key <$> filter (λ r, is_Some (min_cumulative_new_build_mw r)) (gen_rows t))
    as Hkeys.
  { apply (limited_keys gen_key min_cumulative_new_build_mw). }
  rewrite Hkeys in Hlimited.
  exists limited, values. split_and!.
  - done.
  - by rewrite Hparams.
  - intros gv. rewrite <- elem_of_dom, Hdom. set_solver.
  - intros gv limit Hgv. apply Hval in Hgv. unfold min_rows in Hgv.
    apply list_elem_of_fmap in Hgv as (r & Heq & Hr). exists r. by simplify_eq.
  - rewrite Hsets by done. rewrite Hset. destruct limited; [|done].
    unfold dp1. simpl. by rewrite lookup_insert_ne.
  - exists (gen_key <$> gen_rows t). split.
    + rewrite Hsets, Hsets1 by done. apply lookup_insert_eq.
    + rewrite Hlimited. destruct (gen_has_min t); [|set_solver].
      intros gv Hgv. apply list_elem_of_fmap in Hgv as (r & -> & Hr).
      apply list_elem_of_filter in Hr as [_ Hr]. apply list_elem_of_fmap. eauto.
Qed.

Lemma gen_ccs_new_minimum_limits_witness :
  ∃ values,
    portal_params (gen_ccs_new_load_model_data (DataPortal ∅ ∅) gas_table)
      !! "gen_ccs_new_min_cumulative_new_build_mw" = Some values
    ∧ is_Some (values !! ("GasCCS", 2020))
    ∧ values !! ("GasCCS", 2030) = None.
Proof.
  destruct (gen_ccs_new_minimum_limits (DataPortal ∅ ∅) gas_table)
    as (limited & values & Hlimited & Hparam & Hdom & _).
  exists values. split_and!; [exact Hparam| |].
  - apply Hdom. rewrite Hlimited. compute_done.
  - apply eq_None_not_Some. rewrite Hdom, Hlimited. compute_done.
Defined.

(** X19.  After [stor_ccs_new_lin] has loaded its cost table, the
    parameter of the maximum cumulative build is defined on exactly the
    vintages whose row has a value in that column (none when the header
    lacks the column), each value coming from such a row, and those
    vintages are vintages of the table.  The set of vintages with a maximum
    is initialised to that list only when it is not empty; the loading of
    the maximum does not disturb what was loaded for the minimum. *)
Theorem stor_ccs_new_lin_maximum_limits (dp : data_portal) (t : stor_table) :
  ∃ limited values,
    limited
    = (if stor_has_max t
       then stor_key
              <$> filter (λ r, is_Some (max_cumulative_new_build_tonne r)) (stor_rows t)
       else [])
    ∧ portal_params (stor_ccs_new_lin_load_model_data dp t)
        !! "stor_ccs_new_lin_max_cumulative_new_build_tonne" = Some values
    ∧ (∀ gv, is_Some (values !! gv) ↔ gv ∈ limited)
    ∧ (∀ gv limit, values !! gv = Some limit →
         ∃ r, r ∈ stor_rows t ∧ stor_key r = gv
              ∧ max_cumulative_new_build_tonne r = Some limit)
    ∧ portal_sets (stor_ccs_new_lin_load_model_data dp t)
        !! "STOR_CCS_NEW_LIN_VNTS_W_MAX_MASS_CONSTRAINT"
      = (if limited is []
         then portal_sets dp !! "STOR_CCS_NEW_LIN_VNTS_W_MAX_MASS_CONSTRAINT"
         else Some limited)
    ∧ (∃ vintages,
         portal_sets (stor_ccs_new_lin_load_model_data dp t) !! "STOR_CCS_NEW_LIN_VNTS"
         = Some vintages
         ∧ limited ⊆ vintages)
    ∧ ∃ minima,
        portal_params (stor_ccs_new_lin_load_model_data dp t)
          !! "stor_ccs_new_lin_min_cumulative_new_build_tonne" = Some minima
        ∧ ∀ gv limit, minima !! gv = Some limit →
            ∃ r, r ∈ stor_rows t ∧ stor_key r = gv
                 ∧ min_cumulative_new_build_tonne r = Some limit.
Proof.
  unfold stor_ccs_new_lin_load_model_data.
  set (dp1 := DataPortal _ _).
  set (min_rows := (λ r, (stor_project r, stor_vintage r, min_cumulative_new_build_tonne r))
                     <$> stor_rows t).
  set (max_rows := (λ r, (stor_project r, stor_vintage r, max_cumulative_new_build_tonne r))
                     <$> stor_rows t).
  destruct (set_limits_spec dp1 "STOR_CCS_NEW_LIN_VNTS_W_MIN_MASS_CONSTRAINT"
              "stor_ccs_new_lin_min_cumulative_new_build_tonne" (stor_has_min t) min_rows)
    as (limited1 & minima & _ & Hparam1 & _ & Hval1 & _ & Hsets1 & _).
  set (dp2 := set_limits dp1 _ _ _ min_rows) in *.
  destruct (set_limits_spec dp2 "STOR_CCS_NEW_LIN_VNTS_W_MAX_MASS_CONSTRAINT"
              "stor_ccs_new_lin_max_cumulative_new_build_tonne" (stor_has_max t) max_rows)
    as (limited & values & Hlimited & Hparam & Hdom & Hval & Hset & Hsets & Hparams).
  assert ((λ r : string * Z * option Q, r.1) <$> filter (λ r, is_Some r.2) max_rows
          = stor_key
              <$> filter (λ r, is_Some (max_cumulative_new_build_tonne r)) (stor_rows t))
    as Hkeys.
  { apply (limited_keys stor_key max_cumulative_new_build_tonne). }
  rewrite Hkeys in Hlimited.
  exists limited, values. split_and!.
  - done.
  - done.
  - intros gv. rewrite <- elem_of_dom, Hdom. set_solver.
  - intros gv limit Hgv. apply Hval in Hgv. unfold max_rows in Hgv.
    apply list_elem_of_fmap in Hgv as (r & Heq & Hr). exists r. by simplify_eq.
  - rewrite Hset. destruct limited; [|done].
    rewrite Hsets1 by done. unfold dp1. simpl. by rewrite lookup_insert_ne.
  - exists (stor_key <$> stor_rows t). split.
    + rewrite Hsets, Hsets1 by done. apply lookup_insert_eq.
    + rewrite Hlimited. destruct (stor_has_max t); [|set_solver].
      intros gv Hgv. apply list_elem_of_fmap in Hgv as (r & -> & Hr).
      apply list_elem_of_filter in Hr as [_ Hr]. apply list_elem_of_fmap. eauto.
  - exists minima. split; [by rewrite Hparams|].
    intros gv limit Hgv. apply Hval1 in Hgv. unfold min_rows in Hgv.
    apply list_elem_of_fmap in Hgv as (r & Heq & Hr). exists r. by simplify_eq.
Qed.

Lemma stor_ccs_new_lin_maximum_limits_witness :
  ∃ values,
    portal_params (stor_ccs_new_lin_load_model_data (DataPortal ∅ ∅) cavern_table)
      !! "stor_ccs_new_lin_max_cumulative_new_build_tonne" = Some values
    ∧ is_Some (values !! ("Cavern", 2030))
    ∧ values !! ("Cavern", 2020) = None.
Proof.
  destruct (stor_ccs_new_lin_maximum_limits (DataPortal ∅ ∅) cavern_table)
    as (limited & values & Hlimited & Hparam & Hdom & _).
  exists values. split_and!; [exact Hparam| |].
  - apply Hdom. rewrite Hlimited. compute_done.
  - apply eq_None_not_Some. rewrite Hdom, Hlimited. compute_done.
Defined.

End VintageCostsFacts.
